(* Verification of the grid core of AppShell (src/core/TableCore.tsx):
   the date codec, the hierarchy/visibility engine, selection updates,
   the commit guard of the editing session, indentation and paste. *)

From Stdlib Require Import ZArith Lia Bool List Ascii String Sorted Permutation.
From stdpp Require Import base gmap sets list strings.

Open Scope Z_scope.

(** stdpp makes string concatenation opaque to [simpl]; the proofs below
    compute with it. *)
Arguments String.append : simpl nomatch.

(* ================================================================== *)
(** * Strings as the JavaScript code sees them                         *)
(* ================================================================== *)

Module Js.

(** Characters are modelled by their code unit in [0, 255]. *)
Definition code (a : ascii) : Z := Z.of_nat (nat_of_ascii a).

(** [\d] *)
Definition is_digit (a : ascii) : bool := (48 <=? code a) && (code a <=? 57).

(** [\s] and the characters removed by [String.prototype.trim]
    (tab, line feed, vertical tab, form feed, carriage return, space,
    no-break space). *)
Definition is_ws (a : ascii) : bool :=
  let n := code a in
  ((9 <=? n) && (n <=? 13)) || (n =? 32) || (n =? 160).

Fixpoint strip_start (s : string) : string :=
  match s with
  | EmptyString => EmptyString
  | String a s' => if is_ws a then strip_start s' else s
  end.

Fixpoint rev_str (s : string) (acc : string) : string :=
  match s with
  | EmptyString => acc
  | String a s' => rev_str s' (String a acc)
  end.

(** [s.trim()] *)
Definition trim (s : string) : string :=
  rev_str (strip_start (rev_str (strip_start s) EmptyString)) EmptyString.

(** The longest prefix whose characters satisfy [p], and the rest. *)
Fixpoint span (p : ascii -> bool) (s : string) : string * string :=
  match s with
  | EmptyString => (EmptyString, EmptyString)
  | String a s' =>
      if p a then let (x, r) := span p s' in (String a x, r)
      else (EmptyString, s)
  end.

(** [Number(s)] on a string of decimal digits. *)
Fixpoint dec_acc (s : string) (acc : Z) : Z :=
  match s with
  | EmptyString => acc
  | String a s' => dec_acc s' (acc * 10 + (code a - 48))
  end.
Definition Number_digits (s : string) : Z := dec_acc s 0.

Definition digit_char (n : Z) : ascii := ascii_of_nat (Z.to_nat (48 + n)).

(** [String(n)] on an integer. *)
Fixpoint digits_of_nat (fuel : nat) (n : Z) (acc : string) : string :=
  match fuel with
  | O => acc
  | S fuel' =>
      let acc' := String (digit_char (n mod 10)) acc in
      if n <? 10 then acc' else digits_of_nat fuel' (n / 10) acc'
  end.
Definition String_of_Z (n : Z) : string :=
  if n <? 0 then String "-" (digits_of_nat 64 (- n) EmptyString)
  else digits_of_nat 64 n EmptyString.

(** [s.padStart(2, "0")] *)
Definition padStart2 (s : string) : string :=
  match String.length s with
  | O => "00"
  | 1%nat => String "0" s
  | _ => s
  end.

(** [s.replace(pat, rep)] with a string pattern: the first occurrence only. *)
Fixpoint replace_first (pat rep s : string) : string :=
  if String.prefix pat s then rep ++ substring (String.length pat) (String.length s) s
  else match s with
       | EmptyString => EmptyString
       | String a s' => String a (replace_first pat rep s')
       end.

(** [s.toLowerCase()] *)
Definition lower (a : ascii) : ascii :=
  if (65 <=? code a) && (code a <=? 90) then ascii_of_nat (nat_of_ascii a + 32) else a.
Fixpoint toLowerCase (s : string) : string :=
  match s with
  | EmptyString => EmptyString
  | String a s' => String (lower a) (toLowerCase s')
  end.

(** [s.startsWith(p)] *)
Definition startsWith (s p : string) : bool := String.prefix p s.

End Js.

(* ================================================================== *)
(** * The [Date] built-in, local time taken as UTC                     *)
(* ================================================================== *)

Module JsDate.

Definition msPerDay : Z := 86400000.

(** Day number (days since 1970-01-01) of a proleptic Gregorian date,
    month in 1..12. *)
Definition days_from_civil (y m d : Z) : Z :=
  let y' := if m <=? 2 then y - 1 else y in
  let era := y' / 400 in
  let yoe := y' - era * 400 in
  let mp := (m + 9) mod 12 in
  let doy := (153 * mp + 2) / 5 + d - 1 in
  let doe := yoe * 365 + yoe / 4 - yoe / 100 + doy in
  era * 146097 + doe - 719468.

(** Inverse: (year, month in 1..12, day of month) of a day number. *)
Definition civil_from_days (z : Z) : Z * Z * Z :=
  let z' := z + 719468 in
  let era := z' / 146097 in
  let doe := z' - era * 146097 in
  let yoe := (doe - doe / 1460 + doe / 36524 - doe / 146096) / 365 in
  let y := yoe + era * 400 in
  let doy := doe - (365 * yoe + yoe / 4 - yoe / 100) in
  let mp := (5 * doy + 2) / 153 in
  let d := doy - (153 * mp + 2) / 5 + 1 in
  let m := if mp <? 10 then mp + 3 else mp - 9 in
  (if m <=? 2 then y + 1 else y, m, d).

(** ECMA-262 MakeDay: the month overflows into the year, the date is
    added to the first day of the month. *)
Definition MakeDay (year month date : Z) : Z :=
  let ym := year + month / 12 in
  let mn := month mod 12 in
  days_from_civil ym (mn + 1) 1 + date - 1.

Definition MakeTime (h mi s ms : Z) : Z := h * 3600000 + mi * 60000 + s * 1000 + ms.

Definition MakeDate (day time : Z) : Z := day * msPerDay + time.

(** A time value, [None] for an invalid date (NaN). *)
Definition TimeClip (t : Z) : option Z :=
  if Z.abs t <=? 8640000000000000 then Some t else None.

(** [new Date(y, m, d, h, mi, s)]: a year in 0..99 means 1900 + year. *)
Definition new_Date (y m d h mi s : Z) : option Z :=
  let yr := if (0 <=? y) && (y <=? 99) then 1900 + y else y in
  TimeClip (MakeDate (MakeDay yr m d) (MakeTime h mi s 0)).

Definition isNaN (d : option Z) : bool :=
  match d with None => true | Some _ => false end.

Definition Day (t : Z) : Z := t / msPerDay.
Definition getFullYear (t : Z) : Z := let '(y, _, _) := civil_from_days (Day t) in y.
Definition getMonth (t : Z) : Z := let '(_, m, _) := civil_from_days (Day t) in m - 1.
Definition getDate (t : Z) : Z := let '(_, _, d) := civil_from_days (Day t) in d.
Definition getHours (t : Z) : Z := (t mod msPerDay) / 3600000.
Definition getMinutes (t : Z) : Z := (t mod 3600000) / 60000.

End JsDate.

(* ================================================================== *)
(** * Date codec: [parseDateFlexible] and [formatDateByPattern]        *)
(* ================================================================== *)

Module DateCodec.
Import Js JsDate.

(** Anchored matching of the three regular expressions of
    [parseDateFlexible].  Every digit group is followed by a separator
    or by the end of the string, so the greedy digit run is the only
    candidate for a group and the regex match is deterministic. *)
Definition digits_n (lo hi : nat) (s : string) : option (string * string) :=
  let (g, r) := span is_digit s in
  if (lo <=? String.length g)%nat && (String.length g <=? hi)%nat then Some (g, r)
  else None.

Definition chr (c : ascii) (s : string) : option string :=
  match s with
  | String a r => if Ascii.eqb a c then Some r else None
  | EmptyString => None
  end.

Definition eos (s : string) : option unit :=
  match s with EmptyString => Some tt | _ => None end.

(** [/^(\d{4})-(\d{2})-(\d{2})(?:[T\s](\d{2}):(\d{2})(?::(\d{2}))?)?$/] *)
Definition match_iso (t : string)
  : option (string * string * string * option string * option string * option string) :=
  '(g1, r) ← digits_n 4 4 t; r ← chr "-" r;
  '(g2, r) ← digits_n 2 2 r; r ← chr "-" r;
  '(g3, r) ← digits_n 2 2 r;
  match r with
  | EmptyString => Some (g1, g2, g3, None, None, None)
  | String sep r =>
      if Ascii.eqb sep "T" || is_ws sep then
        '(g4, r) ← digits_n 2 2 r; r ← chr ":" r;
        '(g5, r) ← digits_n 2 2 r;
        match r with
        | EmptyString => Some (g1, g2, g3, Some g4, Some g5, None)
        | _ => r ← chr ":" r; '(g6, r) ← digits_n 2 2 r; _ ← eos r;
               Some (g1, g2, g3, Some g4, Some g5, Some g6)
        end
      else None
  end.

(** [/^(\d{1,2})<sep>(\d{1,2})<sep>(\d{4})(?:\s+(\d{1,2}):(\d{2}))?$/]
    for the separators ['.'] and ['/']. *)
Definition match_dmy (sep : ascii) (t : string)
  : option (string * string * string * option string * option string) :=
  '(g1, r) ← digits_n 1 2 t; r ← chr sep r;
  '(g2, r) ← digits_n 1 2 r; r ← chr sep r;
  '(g3, r) ← digits_n 4 4 r;
  match r with
  | EmptyString => Some (g1, g2, g3, None, None)
  | _ =>
      let (w, r) := span is_ws r in
      if (String.length w =? 0)%nat then None
      else '(g4, r) ← digits_n 1 2 r; r ← chr ":" r;
           '(g5, r) ← digits_n 2 2 r; _ ← eos r;
           Some (g1, g2, g3, Some g4, Some g5)
  end.

Definition match_dot := match_dmy ".".
Definition match_slash := match_dmy "/".

(** [x != null ? Number(x) : 0] *)
Definition num_or_0 (g : option string) : Z :=
  match g with Some s => Number_digits s | None => 0 end.

(** [const d = new Date(...); return isNaN(+d) ? null : d;] *)
Definition date_or_null (d : option Z) : option Z := if isNaN d then None else d.

(** The slash-form heuristic: the pair (dd, mm) chosen from (a, b). *)
Definition slash_day_month (a b : Z) (patternHint : option string) : Z * Z :=
  if (12 <? a) && (b <=? 12) then (a, b)
  else if (12 <? b) && (a <=? 12) then (b, a)
  else
    let prefersDMY := startsWith (toLowerCase (default "" patternHint)) "dd" in
    let no_hint := match patternHint with None => true | Some h => String.eqb h "" end in
    if prefersDMY || no_hint then (a, b) else (b, a).

Definition parseDateFlexible (input : string) (patternHint : option string) : option Z :=
  if String.eqb input "" then None else
  let t := trim input in
  if String.eqb t "" then None else
  match match_iso t with
  | Some (g1, g2, g3, g4, g5, g6) =>
      let yyyy := Number_digits g1 in
      let mm := Number_digits g2 in
      let dd := Number_digits g3 in
      let hh := num_or_0 g4 in
      let mi := num_or_0 g5 in
      let ss := num_or_0 g6 in
      date_or_null (new_Date yyyy (mm - 1) dd hh mi ss)
  | None =>
  match match_dot t with
  | Some (g1, g2, g3, g4, g5) =>
      let dd := Number_digits g1 in
      let mm := Number_digits g2 in
      let yyyy := Number_digits g3 in
      let hh := num_or_0 g4 in
      let mi := num_or_0 g5 in
      date_or_null (new_Date yyyy (mm - 1) dd hh mi 0)
  | None =>
  match match_slash t with
  | Some (g1, g2, g3, g4, g5) =>
      let a := Number_digits g1 in
      let b := Number_digits g2 in
      let yyyy := Number_digits g3 in
      let hh := num_or_0 g4 in
      let mi := num_or_0 g5 in
      let '(dd, mm) := slash_day_month a b patternHint in
      date_or_null (new_Date yyyy (mm - 1) dd hh mi 0)
  | None => None
  end end end.

(** The fields [parseDateFlexible] passes to [new Date]: year, month
    (1-based, before the [- 1]), day, hours, minutes and seconds. *)
Definition date_fields (input : string) (patternHint : option string)
  : option (Z * Z * Z * Z * Z * Z) :=
  if String.eqb input "" then None else
  let t := trim input in
  if String.eqb t "" then None else
  match match_iso t with
  | Some (g1, g2, g3, g4, g5, g6) =>
      Some (Number_digits g1, Number_digits g2, Number_digits g3,
            num_or_0 g4, num_or_0 g5, num_or_0 g6)
  | None =>
  match match_dot t with
  | Some (g1, g2, g3, g4, g5) =>
      Some (Number_digits g3, Number_digits g2, Number_digits g1,
            num_or_0 g4, num_or_0 g5, 0)
  | None =>
  match match_slash t with
  | Some (g1, g2, g3, g4, g5) =>
      let '(dd, mm) := slash_day_month (Number_digits g1) (Number_digits g2) patternHint in
      Some (Number_digits g3, mm, dd, num_or_0 g4, num_or_0 g5, 0)
  | None => None
  end end end.

Definition formatDateByPattern (date : option Z) (pattern : string) : string :=
  match date with
  | None => ""
  | Some t =>
      let yyyy := getFullYear t in
      let mm := padStart2 (String_of_Z (getMonth t + 1)) in
      let dd := padStart2 (String_of_Z (getDate t)) in
      replace_first "dd" dd (replace_first "mm" mm (replace_first "yyyy" (String_of_Z yyyy) pattern))
  end.

Definition formatDatetimeByPattern (date : option Z) (pattern : string) : string :=
  match date with
  | None => ""
  | Some t =>
      let base := formatDateByPattern date pattern in
      let hh := padStart2 (String_of_Z (getHours t)) in
      let mi := padStart2 (String_of_Z (getMinutes t)) in
      base ++ " " ++ hh ++ ":" ++ mi
  end.

(** [toISODateInputValue(d)]: the value of an [<input type="date">]. *)
Definition toISODateInputValue (d : option Z) : string :=
  match d with
  | None => ""
  | Some t =>
      let yyyy := getFullYear t in
      let mm := padStart2 (String_of_Z (getMonth t + 1)) in
      let dd := padStart2 (String_of_Z (getDate t)) in
      String_of_Z yyyy ++ "-" ++ mm ++ "-" ++ dd
  end.

End DateCodec.

(* ================================================================== *)
(** * Lemmas on the string primitives                                  *)
(* ================================================================== *)

(* ================================================================== *)
(** * The grid core: data model and the state of [TableCore]           *)
(* ================================================================== *)

Module Grid.
Import Js JsDate DateCodec.

Inductive ColType := TText | TNumber | TDate | TDatetime.

Record ColumnDef := mkCol { key : string; title : string; type : option ColType; width : option Z }.
#[global] Instance ColumnDef_inhabited : Inhabited ColumnDef := populate (mkCol "" "" None None).

(** A [cells] object lives in a heap: rows hold a reference to it, so
    that two row objects can share one [cells] object as in JavaScript. *)
Definition loc := nat.

Record RowData := mkRow { id : string; indent : Z; cells : loc }.

Definition dummy_row : RowData := mkRow "" 0 0%nat.
#[global] Instance RowData_inhabited : Inhabited RowData := populate dummy_row.

Inductive CellValue (num : Type) :=
  | CStr (s : string) | CNum (n : num) | CNull | CUndefined.
Arguments CStr {num} s. Arguments CNum {num} n. Arguments CNull {num}. Arguments CUndefined {num}.

Abbreviation Heap num := (gmap loc (gmap string (CellValue num))).

Record Selection := mkSel { r1 : Z; r2 : Z; c1 : Z; c2 : Z }.

Definition NOSEL : Selection := mkSel (-1) (-1) (-1) (-1).

Definition hasSel (s : Selection) : bool :=
  (0 <=? r1 s) && (0 <=? c1 s) && (0 <=? r2 s) && (0 <=? c2 s).

Inductive EditMode := Replace | CaretEnd | SelectAll.

Record EditingState := mkEdit { er : Z; ec : Z; mode : EditMode; seed : option string }.

Record TableCoreCellCommit (num : Type) := mkCommit {
  ev_row : Z; ev_col : Z; ev_columnKey : string;
  ev_prev : CellValue num; ev_next : CellValue num }.
Arguments mkCommit {num}.

(** The state of one [TableCore] instance.  [data] is the row collection
    the core works on ([data] and [dataRef.current]), [host_rows] lists
    every collection handed to [onChange], [commits] every record handed
    to [onCellCommit]. *)
Record Core (num : Type) := mkCore {
  cols : list ColumnDef;
  data : list RowData;
  heap : Heap num;
  next_loc : loc;
  sel : Selection;
  editing : option EditingState;
  editValue : string;
  editSessionId : nat;
  lastCommittedSession : option nat;
  collapsed : gset string;
  host_rows : list (list RowData);
  commits : list (TableCoreCellCommit num) }.
Arguments mkCore {num}.
Arguments cols {num}. Arguments data {num}. Arguments heap {num}. Arguments next_loc {num}.
Arguments sel {num}. Arguments editing {num}. Arguments editValue {num}.
Arguments editSessionId {num}. Arguments lastCommittedSession {num}.
Arguments collapsed {num}. Arguments host_rows {num}. Arguments commits {num}.

(** An event handler either returns or throws (a [TypeError] on
    [undefined.key]); the state it leaves behind is kept in both cases. *)
Inductive outcome (A : Type) := Done (s : A) | Throws (s : A).
Arguments Done {A} s. Arguments Throws {A} s.

Definition isNumericColumn (col : ColumnDef) : bool :=
  match type col with Some TNumber => true | _ => false end.
Definition isDateColumn (col : ColumnDef) : bool :=
  match type col with Some TDate | Some TDatetime => true | _ => false end.
Definition isDatetime (col : ColumnDef) : bool :=
  match type col with Some TDatetime => true | _ => false end.

(** [Math.max(a, Math.min(b, n))] *)
Definition clamp (n a b : Z) : Z := Z.max a (Z.min b n).

(** Reading [obj[key]] through a row's [cells] reference. *)
Definition read_cell {num} (h : Heap num) (row : RowData) (k : string) : CellValue num :=
  match h !! cells row with
  | Some obj => default CUndefined (obj !! k)
  | None => CUndefined
  end.

(** [row.cells[key] = v], an in-place write into the shared object. *)
Definition write_cell {num} (h : Heap num) (row : RowData) (k : string) (v : CellValue num)
  : Heap num :=
  <[cells row := <[k := v]> (default ∅ (h !! cells row))]> h.

(** [arr.indexOf(x)], [None] for -1. *)
Fixpoint indexOf (l : list nat) (x : Z) : option nat :=
  match l with
  | [] => None
  | v :: l' => if Z.eqb (Z.of_nat v) x then Some 0%nat
               else option_map S (indexOf l' x)
  end.

(** [while (st.length && top.indent >= indent) st.pop()], top first. *)
Fixpoint pop_while {A} (ind : A -> Z) (x : Z) (st : list A) : list A :=
  match st with
  | a :: st' => if x <=? ind a then pop_while ind x st' else st
  | [] => []
  end.

(** [computeHasChildren] *)
Fixpoint chc_loop (rows : list RowData) (fuel i : nat) (stack : list (nat * Z))
  (childrenMap : gmap nat (list nat)) : gmap nat (list nat) :=
  match fuel with
  | O => childrenMap
  | S fuel' =>
      let ind := indent (rows !!! i) in
      let stack := pop_while snd ind stack in
      let childrenMap :=
        match stack with
        | (parentIdx, _) :: _ => <[parentIdx := default [] (childrenMap !! parentIdx) ++ [i]]> childrenMap
        | [] => childrenMap
        end in
      chc_loop rows fuel' (S i) ((i, ind) :: stack) childrenMap
  end.

Definition computeHasChildren (rows : list RowData) : gset nat :=
  dom (chc_loop rows (length rows) 0 [] ∅).

Record VisEntry := mkVis { ve_id : string; ve_indent : Z; ve_collapsed : bool }.

(** [visibleRowIndices] *)
Fixpoint vis_loop (rows : list RowData) (hasChildren : gset nat) (coll : gset string)
  (fuel i : nat) (st : list VisEntry) : list nat :=
  match fuel with
  | O => []
  | S fuel' =>
      let row := rows !!! i in
      let st := pop_while ve_indent (indent row) st in
      let hidden := existsb ve_collapsed st in
      let isParent := bool_decide (i ∈ hasChildren) in
      let st := mkVis (id row) (indent row)
                  (if isParent then bool_decide (id row ∈ coll) else false) :: st in
      (if hidden then [] else [i]) ++ vis_loop rows hasChildren coll fuel' (S i) st
  end.

Definition visibleRowIndices (rows : list RowData) (hasChildren : gset nat)
  (coll : gset string) : list nat :=
  vis_loop rows hasChildren coll (length rows) 0 [].

Inductive Dir := Down | Up | Right | Left.

(** [nextPosAfter(r, c, dir)] over the visible rows and the column count. *)
Definition nextPosAfter (visible : list nat) (ncols : nat) (r c : Z) (dir : Dir) : Z * Z :=
  let colMax := Z.of_nat ncols - 1 in
  let last := Z.of_nat (length visible) - 1 in
  let at_ (vi : Z) := Z.of_nat (visible !!! Z.to_nat vi) in
  match indexOf visible r with
  | None =>
      let nearest :=
        match find (fun v => r <=? Z.of_nat v) visible with
        | Some v => Some v
        | None => visible !! (length visible - 1)%nat
        end in
      (match nearest with Some v => Z.of_nat v | None => r end, c)
  | Some idx =>
      let vi := Z.of_nat idx in
      let vi := match dir with Down => Z.min last (vi + 1) | Up => Z.max 0 (vi - 1) | _ => vi end in
      match dir with
      | Right =>
          if colMax <? c + 1 then (at_ (Z.min last (vi + 1)), 0) else (r, c + 1)
      | Left =>
          if c - 1 <? 0 then (at_ (Z.max 0 (vi - 1)), colMax) else (r, c - 1)
      | _ => (at_ vi, c)
      end
  end.

End Grid.

(* ================================================================== *)
(** * Event handlers of [TableCore]                                    *)
(* ================================================================== *)

Module Ops.
Import Js JsDate DateCodec Grid.

(** Updates of single fields of the state. *)
Section Setters.
Context {num : Type}.
Implicit Type st : Core num.

Definition set_data st (d : list RowData) : Core num :=
  mkCore (cols st) d (heap st) (next_loc st) (sel st) (editing st) (editValue st)
    (editSessionId st) (lastCommittedSession st) (collapsed st) (host_rows st) (commits st).
Definition set_cols st (c : list ColumnDef) : Core num :=
  mkCore c (data st) (heap st) (next_loc st) (sel st) (editing st) (editValue st)
    (editSessionId st) (lastCommittedSession st) (collapsed st) (host_rows st) (commits st).
Definition set_heap st (h : Heap num) (n : loc) : Core num :=
  mkCore (cols st) (data st) h n (sel st) (editing st) (editValue st)
    (editSessionId st) (lastCommittedSession st) (collapsed st) (host_rows st) (commits st).
Definition set_sel st (s : Selection) : Core num :=
  mkCore (cols st) (data st) (heap st) (next_loc st) s (editing st) (editValue st)
    (editSessionId st) (lastCommittedSession st) (collapsed st) (host_rows st) (commits st).
Definition set_editing st (e : option EditingState) : Core num :=
  mkCore (cols st) (data st) (heap st) (next_loc st) (sel st) e (editValue st)
    (editSessionId st) (lastCommittedSession st) (collapsed st) (host_rows st) (commits st).
Definition set_editValue st (v : string) : Core num :=
  mkCore (cols st) (data st) (heap st) (next_loc st) (sel st) (editing st) v
    (editSessionId st) (lastCommittedSession st) (collapsed st) (host_rows st) (commits st).
Definition set_session st (sid : nat) (last : option nat) : Core num :=
  mkCore (cols st) (data st) (heap st) (next_loc st) (sel st) (editing st) (editValue st)
    sid last (collapsed st) (host_rows st) (commits st).
Definition set_collapsed st (c : gset string) : Core num :=
  mkCore (cols st) (data st) (heap st) (next_loc st) (sel st) (editing st) (editValue st)
    (editSessionId st) (lastCommittedSession st) c (host_rows st) (commits st).
Definition emit_change st (next : list RowData) : Core num :=
  mkCore (cols st) (data st) (heap st) (next_loc st) (sel st) (editing st) (editValue st)
    (editSessionId st) (lastCommittedSession st) (collapsed st) (host_rows st ++ [next]) (commits st).
Definition emit_commit st (evt : TableCoreCellCommit num) : Core num :=
  mkCore (cols st) (data st) (heap st) (next_loc st) (sel st) (editing st) (editValue st)
    (editSessionId st) (lastCommittedSession st) (collapsed st) (host_rows st) (commits st ++ [evt]).

End Setters.

(** [arr[i]] for a number [i]: [undefined] below 0 and past the end. *)
Definition nth_z {A} (l : list A) (i : Z) : option A :=
  if i <? 0 then None else l !! Z.to_nat i.

Definition isAggregatedCell (_rowIndex : nat) (_col : ColumnDef) : bool := false.

(** The index [Array.prototype.splice(start, ...)] works at on a list of
    length [len]: a negative [start] counts from the end. *)
Definition splice_start (len : nat) (start : Z) : nat :=
  if start <? 0 then Z.to_nat (Z.max (Z.of_nat len + start) 0)
  else Z.to_nat (Z.min start (Z.of_nat len)).

(** [next.splice(from, 1)] then [next.splice(to, 0, moved)], [from]
    being the index [splice] works at; [None] when nothing is removed
    there (the moved element is [undefined]). *)
Definition move_col (l : list ColumnDef) (from to : nat) : option (list ColumnDef) :=
  match l !! from with
  | None => None
  | Some moved =>
      let rest := take from l ++ drop (S from) l in
      Some (take to rest ++ moved :: drop to rest)
  end.

(** [arr.findIndex(p)] *)
Fixpoint findIndex {A} (p : A -> bool) (l : list A) : Z :=
  match l with
  | [] => -1
  | a :: l' => if p a then 0 else let k := findIndex p l' in if k <? 0 then -1 else k + 1
  end.

Record DragState := mkDrag { active : bool; dragging : bool; dr0 : Z; dc0 : Z; x0 : Z; y0 : Z }.

Definition DRAG_THRESHOLD_PX : Z := 4.

(** [onCellMouseDown(r, c)]: a one-cell selection and a drag candidate. *)
Definition onCellMouseDown (r c clientX clientY : Z) : Selection * DragState :=
  (mkSel r r c c, mkDrag true false r c clientX clientY).

(** [onMouseMove]: [target] is the [(data-r, data-c)] of the cell under
    the pointer, if any.  Returns the drag state and the new selection
    when [setSel] is called. *)
Definition onMouseMove (ds : option DragState) (clientX clientY : Z) (target : option (Z * Z))
  : option DragState * option Selection :=
  match ds with
  | None => (ds, None)
  | Some d =>
      if negb (active d) then (ds, None) else
      let dx := clientX - x0 d in
      let dy := clientX - y0 d in
      let d := if negb (dragging d) && (DRAG_THRESHOLD_PX * DRAG_THRESHOLD_PX <? dx * dx + dy * dy)
               then mkDrag (active d) true (dr0 d) (dc0 d) (x0 d) (y0 d) else d in
      if negb (dragging d) then (Some d, None) else
      match target with
      | None => (Some d, None)
      | Some (r, c) =>
          (Some d, Some (mkSel (Z.min r (dr0 d)) (Z.max r (dr0 d)) (Z.min c (dc0 d)) (Z.max c (dc0 d))))
      end
  end.

(** [onMouseUp]: ends the drag and clears [suppressClickToEditOnce]
    (the second component). *)
Definition onMouseUp (ds : option DragState) (suppressClickToEditOnce : bool)
  : option DragState * bool :=
  match ds with
  | None => (None, suppressClickToEditOnce)
  | Some d => (Some (mkDrag false false (dr0 d) (dc0 d) (x0 d) (y0 d)), false)
  end.

(** The [mousemove] events between a [mousedown] and the next [mouseup],
    each with its [clientX], [clientY] and the cell under the pointer:
    the drag state left and the selections [setSel] receives, in order. *)
Fixpoint run_moves (ds : option DragState) (moves : list (Z * Z * option (Z * Z)))
  : option DragState * list Selection :=
  match moves with
  | [] => (ds, [])
  | (x, y, t) :: moves' =>
      match onMouseMove ds x y t with
      | (ds', s) =>
          match run_moves ds' moves' with
          | (ds'', ss) => (ds'', match s with Some s => s :: ss | None => ss end)
          end
      end
  end.

(** [isSingleCellSel(s)] *)
Definition isSingleCellSel (s : Selection) : bool :=
  hasSel s && (r1 s =? r2 s) && (c1 s =? c2 s).

(** The fields of a [KeyboardEvent] the [keydown] handler reads. *)
Record KeyEvent := mkKey { kb_key : string; altKey : bool; shiftKey : bool; ctrlKey : bool; metaKey : bool }.

Definition nav_keys : list string := ["ArrowUp"; "ArrowDown"; "ArrowLeft"; "ArrowRight"; "Tab"; "Enter"].

(** The request handed to [onRequestDatePicker]. *)
Record DatePickerRequest (num : Type) := mkReq {
  rq_row : Z; rq_col : Z; rq_column : ColumnDef; rq_currentValue : CellValue num }.
Arguments mkReq {num}.

Section Handlers.
Context {num : Type}.
(** [Number(raw)] and [String(n)] on JavaScript numbers. *)
Variable Number : string -> num.
Variable NumberToString : num -> string.
(** The [dateFormat] prop ("dd.mm.yyyy" when absent). *)
Variable dateFormat : string.
(** [parseClipboard] of [./utils/clipboard]. *)
Variable parseClipboard : string -> list (list string).

Implicit Type st : Core num.

(** [setAndPropagate(next)]: [setData(next); onChange(next)]. *)
Definition setAndPropagate st (next : list RowData) : Core num :=
  emit_change (set_data st next) next.

(** The value stored for the text [raw] in column [col], as computed in
    [commitCellValue] and (with the same expression) in [onPaste]. *)
Definition coerce (col : ColumnDef) (raw : string) : CellValue num :=
  if isNumericColumn col then (if String.eqb raw "" then CStr "" else CNum (Number raw))
  else if isDateColumn col then
    let d := parseDateFlexible raw (Some dateFormat) in
    if isDatetime col then
      match d with Some _ => CStr (formatDatetimeByPattern d dateFormat) | None => CStr raw end
    else
      match d with Some _ => CStr (formatDateByPattern d dateFormat) | None => CStr raw end
  else CStr raw.

(** [dataRef.current[r]?.cells?.[col.key]] *)
Definition cell_at st (r : Z) (k : string) : CellValue num :=
  match nth_z (data st) r with Some row => read_cell (heap st) row k | None => CUndefined end.

Definition commitCellValue (r c : Z) (raw : string) (endEdit : bool) st : outcome (Core num) :=
  match nth_z (cols st) c with
  | None => Throws st
  | Some col =>
      let prev := cell_at st r (key col) in
      let parsed := coerce col raw in
      (* next = data.map((row, i) => i === r ? { ...row, cells: { ...row.cells, [key]: parsed } } : row) *)
      let l := next_loc st in
      let '(next, h, n) :=
        match nth_z (data st) r with
        | Some row =>
            (imap (fun i row' => if decide (Z.of_nat i = r) then mkRow (id row') (indent row') l else row')
                  (data st),
             <[l := <[key col := parsed]> (default ∅ (heap st !! cells row))]> (heap st),
             S l)
        | None => (data st, heap st, l)
        end in
      let st := setAndPropagate (set_heap st h n) next in
      let st := emit_commit st (mkCommit r c (key col) prev parsed) in
      Done (if endEdit then set_editing st None else st)
  end.

Definition commitEdit (r c : Z) (val : string) st : outcome (Core num) :=
  let sessionId := editSessionId st in
  if decide (lastCommittedSession st = Some sessionId) then Done st
  else commitCellValue r c val true (set_session st sessionId (Some sessionId)).

(** [String(storedVal ?? "")] *)
Definition cell_text (v : CellValue num) : string :=
  match v with
  | CStr s => s
  | CNum n => NumberToString n
  | CNull | CUndefined => ""
  end.

(** [const col = colsRef.current[next.c]] and
    [dataRef.current[next.r]?.cells?.[col.key]]: a missing row ends the
    optional chain before [col.key] is read, so only a missing column on
    an existing row throws. *)
Definition startEditing (next : EditingState) st : outcome (Core num) :=
  let st := set_session st (S (editSessionId st)) None in
  let stored :=
    match nth_z (data st) (er next) with
    | None => Some CUndefined
    | Some row =>
        match nth_z (cols st) (ec next) with
        | None => None
        | Some col => Some (read_cell (heap st) row (key col))
        end
    end in
  match stored with
  | None => Throws st
  | Some storedVal =>
      let initial :=
        match mode next with
        | Replace => default "" (seed next)
        | _ => cell_text storedVal
        end in
      Done (set_editing (set_editValue st initial) (Some next))
  end.

Definition indentRow (rowIdx delta : Z) st : Core num :=
  let arr := data st in
  match nth_z arr rowIdx with
  | None => st
  | Some cur =>
      let prevIndent := if 0 <? rowIdx then indent (arr !!! Z.to_nat (rowIdx - 1)) else 0 in
      let maxIndent := prevIndent + 1 in
      let desired := indent cur + delta in
      let nextIndent := clamp desired 0 maxIndent in
      if nextIndent =? indent cur then st
      else setAndPropagate st
             (imap (fun i r => if decide (Z.of_nat i = rowIdx) then mkRow (id r) nextIndent (cells r) else r) arr)
  end.

(** The inner loop of [onPaste] over the cells of one clipboard line. *)
Fixpoint paste_line (row : RowData) (visRow : nat) (c1 : Z) (cs : list ColumnDef)
  (line : list string) (j : nat) (h : Heap num) : Heap num :=
  match line with
  | [] => h
  | raw :: line' =>
      let cc := c1 + Z.of_nat j in
      if Z.of_nat (length cs) <=? cc then h
      else
        let col := cs !!! Z.to_nat cc in
        let h := if isAggregatedCell visRow col then h else write_cell h row (key col) (coerce col raw) in
        paste_line row visRow c1 cs line' (S j) h
  end.

(** The outer loop of [onPaste] over the clipboard lines. *)
Fixpoint paste_rows (visible : list nat) (start : nat) (c1 : Z) (cs : list ColumnDef)
  (next : list RowData) (m : list (list string)) (i : nat) (h : Heap num) : Heap num :=
  match m with
  | [] => h
  | line :: m' =>
      match visible !! (start + i)%nat with
      | None => h
      | Some visRow =>
          let h := paste_line (next !!! visRow) visRow c1 cs line 0 h in
          paste_rows visible start c1 cs next m' (S i) h
      end
  end.

Definition onPaste (txt : string) st : Core num :=
  let curSel := sel st in
  if negb (hasSel curSel) then st else
  if String.eqb txt "" then st else
  let m := parseClipboard txt in
  let next := data st in
  let visible := visibleRowIndices (data st) (computeHasChildren (data st)) (collapsed st) in
  match indexOf visible (r1 curSel) with
  | None => st
  | Some startIdxInVisible =>
      let h := paste_rows visible startIdxInVisible (c1 curSel) (cols st) next m 0 (heap st) in
      setAndPropagate (set_heap st h (next_loc st)) next
  end.

(** A sequence of [commitEdit] calls, stopping at the first that throws. *)
Fixpoint commit_calls (calls : list (Z * Z * string)) st : outcome (Core num) :=
  match calls with
  | [] => Done st
  | (r, c, v) :: calls' =>
      match commitEdit r c v st with
      | Done st' => commit_calls calls' st'
      | Throws st' => Throws st'
      end
  end.

(** [toggleCollapsed(rowId)] *)
Definition toggleCollapsed (rowId : string) st : Core num :=
  let prev := collapsed st in
  set_collapsed st (if bool_decide (rowId ∈ prev) then prev ∖ {[rowId]} else prev ∪ {[rowId]}).

(** The header [onDrop] at column [idx]; [from] is [Number] of the
    dragged index, an integer ([None] for an empty string or NaN; the
    header's own [onDragStart] writes [String(idx)]).  Both [splice]
    calls start at [splice_start], so a negative [from] counts from the
    end.  When [from] is past the end nothing is removed and [moved] is
    [undefined]: [setCols] receives a list holding an undefined column,
    and the render that follows throws on it ([c.width] in [gridCols],
    [col.key] in the header); when [mapIndex] reads a column [old] that
    does not exist, the [setSel] updater throws in that render.  In both
    cases the batched updates are never committed: [Throws st]. *)
Definition onDrop (from : option Z) (idx : nat) st : outcome (Core num) :=
  match from with
  | None => Done st
  | Some fromZ =>
      if fromZ =? Z.of_nat idx then Done st else
      let from := splice_start (length (cols st)) fromZ in
      match move_col (cols st) from idx with
      | None => Throws st
      | Some next =>
          let s := sel st in
          if negb (hasSel s) then Done (set_sel (set_cols st next) s) else
          let mapIndex (old : Z) : option Z :=
            match nth_z (cols st) old, move_col (cols st) from idx with
            | Some oc, Some arr => Some (findIndex (fun c => String.eqb (key c) (key oc)) arr)
            | _, _ => None
            end in
          match mapIndex (c1 s), mapIndex (c2 s) with
          | Some n1, Some n2 => Done (set_sel (set_cols st next) (mkSel (r1 s) (r2 s) n1 n2))
          | _, _ => Throws st
          end
      end
  end.

(** The document [keydown] handler [onKey].  The effect that installs it
    depends on [startEditing] only, so the [nextPosAfter] it calls reads
    the [visibleRowIndices] of the render that installed it: [visible]
    is that list.  [colsRef], [selRef] and [editingRef] are current. *)
Definition onKey (visible : list nat) (e : KeyEvent) st : outcome (Core num) :=
  match editing st with
  | Some _ => Done st
  | None =>
  let colMax := Z.of_nat (length (cols st)) - 1 in
  let curSel := sel st in
  let k := kb_key e in
  let nextPos r c dir := nextPosAfter visible (length (cols st)) r c dir in
  if altKey e && negb (shiftKey e) && (String.eqb k "ArrowLeft" || String.eqb k "ArrowRight") then
    if negb (hasSel curSel) then Done st
    else Done (indentRow (r1 curSel) (if String.eqb k "ArrowRight" then 1 else -1) st)
  else if existsb (String.eqb k) nav_keys then
    if negb (hasSel curSel) then Done st else
    let r := r1 curSel in
    let c := c1 curSel in
    let r := if String.eqb k "ArrowUp" then fst (nextPos r c Up) else r in
    let r := if String.eqb k "ArrowDown" then fst (nextPos r c Down) else r in
    let c := if String.eqb k "ArrowLeft" then clamp (c - 1) 0 colMax else c in
    let c := if String.eqb k "ArrowRight" then clamp (c + 1) 0 colMax else c in
    let '(r, c) := if String.eqb k "Tab" then nextPos r c (if shiftKey e then Left else Right) else (r, c) in
    let '(r, c) := if String.eqb k "Enter" then nextPos r c (if shiftKey e then Up else Down) else (r, c) in
    Done (set_sel st (mkSel r r c c))
  else if (String.length k =? 1)%nat && negb (ctrlKey e) && negb (metaKey e) then
    if negb (hasSel curSel) then Done st
    else startEditing (mkEdit (r1 curSel) (c1 curSel) Replace (Some k)) st
  else if String.eqb k "F2" then
    if negb (hasSel curSel) then Done st
    else startEditing (mkEdit (r1 curSel) (c1 curSel) CaretEnd None) st
  else Done st
  end.

(** [onCellDoubleClick(r, c)]; [hasPicker] tells whether the
    [onRequestDatePicker] prop is given, the second component is the
    request handed to it. *)
Definition onCellDoubleClick (hasPicker : bool) (r c : Z) st
  : outcome (Core num) * option (DatePickerRequest num) :=
  match nth_z (cols st) c with
  | None => (Throws st, None)
  | Some col =>
      if isDateColumn col && hasPicker then
        match nth_z (data st) r with
        | None => (Throws st, None)
        | Some row => (Done st, Some (mkReq r c col (read_cell (heap st) row (key col))))
        end
      else (startEditing (mkEdit r c SelectAll None) st, None)
  end.

(** [displayValue(_, col, stored)] *)
Definition displayValue (col : ColumnDef) (stored : CellValue num) : CellValue num :=
  match stored with
  | CStr s =>
      if isDateColumn col then
        let d := parseDateFlexible s (Some dateFormat) in
        match d with
        | None => stored
        | Some _ =>
            if isDatetime col then CStr (formatDatetimeByPattern d dateFormat)
            else CStr (formatDateByPattern d dateFormat)
        end
      else stored
  | _ => stored
  end.

(** [row.cells[col.key] ?? ""] *)
Definition stored_or_empty (v : CellValue num) : CellValue num :=
  match v with CNull | CUndefined => CStr "" | _ => v end.

(** The inner loop of [onCopy] over the columns [c1 + k]; [None] when
    [cols[c]] is [undefined] and [col.key] throws. *)
Fixpoint copy_cells st (row : RowData) (cs : list Z) : option (list (CellValue num)) :=
  match cs with
  | [] => Some []
  | c :: cs' =>
      match nth_z (cols st) c with
      | None => None
      | Some col =>
          let v := displayValue col (stored_or_empty (read_cell (heap st) row (key col))) in
          option_map (cons v) (copy_cells st row cs')
      end
  end.

(** The outer loop of [onCopy] over the visible rows. *)
Fixpoint copy_rows st (vis : list nat) (s : Selection) : option (list (list (CellValue num))) :=
  match vis with
  | [] => Some []
  | r :: vis' =>
      if (Z.of_nat r <? r1 s) || (r2 s <? Z.of_nat r) then copy_rows st vis' s
      else
        match copy_cells st (data st !!! r)
                (map (fun k => c1 s + Z.of_nat k) (seq 0 (Z.to_nat (c2 s - c1 s + 1)))) with
        | None => None
        | Some line => option_map (cons line) (copy_rows st vis' s)
        end
  end.

(** [onCopy]: the matrix handed to [toTSV] and put on the clipboard
    ([Done None] when nothing is set). *)
Definition onCopy st : outcome (option (list (list (CellValue num)))) :=
  let curSel := sel st in
  if negb (hasSel curSel) then Done None else
  let visible := visibleRowIndices (data st) (computeHasChildren (data st)) (collapsed st) in
  match copy_rows st visible curSel with
  | None => Throws None
  | Some [] => Done None
  | Some m => Done (Some m)
  end.

(** The [onChange] of the view's native date input of cell [(r, c)]. *)
Definition onViewDateChange (r c : Z) (iso : string) st : outcome (Core num) :=
  if String.eqb iso "" then Done st else
  match commitCellValue r c iso false st with
  | Done st' => Done (set_sel st' (mkSel r r c c))
  | Throws st' => Throws st'
  end.

End Handlers.

(** The indent of the row before row [i] (0 before row 0). *)
Definition prevIndentOf (rows : list RowData) (i : nat) : Z :=
  match i with O => 0 | S k => indent (rows !!! k) end.

(** [0 <= row[i].indent <= row[i-1].indent + 1] for every row. *)
Definition indent_ok (rows : list RowData) : bool :=
  forallb (fun i => let x := indent (rows !!! i) in (0 <=? x) && (x <=? prevIndentOf rows i + 1))
    (seq 0 (length rows)).

(** The selection invariant: empty, or ordered and within the bounds. *)
Definition sel_ok (nrows ncols : nat) (s : Selection) : bool :=
  negb (hasSel s) ||
  ((0 <=? r1 s) && (r1 s <=? r2 s) && (r2 s <? Z.of_nat nrows) &&
   (0 <=? c1 s) && (c1 s <=? c2 s) && (c2 s <? Z.of_nat ncols)).

(** The value a row collection denotes in a heap: each row's id, indent
    and the contents of its [cells] object. *)
Definition denote {num} (h : Heap num) (rows : list RowData)
  : list (string * Z * option (gmap string (CellValue num))) :=
  map (fun r => (id r, indent r, h !! cells r)) rows.

(** JavaScript truthiness of a cell value; [numTruthy] is that of a
    number (false for 0 and NaN). *)
Definition truthy {num} (numTruthy : num -> bool) (v : CellValue num) : bool :=
  match v with
  | CStr s => negb (String.eqb s "")
  | CNum n => numTruthy n
  | CNull | CUndefined => false
  end.

(** [rowHasContent(row, cols)] *)
Definition rowHasContent {num} (numTruthy : num -> bool) (h : Heap num) (row : RowData)
  (cs : list ColumnDef) : bool :=
  existsb (fun c => negb (String.eqb (key c) "#") && truthy numTruthy (read_cell h row (key c))) cs.


(** Every [cells] reference of the collection is below [next_loc]. *)
Definition locs_below {num} (st : Core num) : Prop :=
  Forall (fun row => (cells row < next_loc st)%nat) (data st).

(** The position [nextPosAfter] moves to, whatever the direction. *)
Definition lands_on (visible : list nat) (ncols : nat) (p : Z * Z) : Prop :=
  (exists w, In w visible /\ fst p = Z.of_nat w) /\ 0 <= snd p < Z.of_nat ncols.

(** The rows of the selection, in the visible order. *)
Definition copied_rows (visible : list nat) (s : Selection) : list nat :=
  List.filter (fun r => negb ((Z.of_nat r <? r1 s) || (r2 s <? Z.of_nat r))) visible.

End Ops.

(* ================================================================== *)
(** * Sample tables                                                    *)
(* ================================================================== *)

Module Samples.
Import Grid Ops.

Definition colA : ColumnDef := mkCol "a" "A" None None.
Definition colB : ColumnDef := mkCol "b" "B" None None.
Definition colC : ColumnDef := mkCol "c" "C" None None.

(** Numbers as integers, with trivial conversions. *)
Definition sample_Number (_ : string) : Z := 0.
Definition sample_String (_ : Z) : string := "".

(** A clipboard text read as a single cell. *)
Definition one_cell_clipboard (txt : string) : list (list string) := [[txt]].

Definition sample_heap : Heap Z := {[ 0%nat := {[ "a" := CStr "x" ]} ]}.

Definition sample_table (cs : list ColumnDef) (rows : list RowData) (h : Heap Z) (n : loc)
  (s : Selection) : Core Z :=
  mkCore cs rows h n s None "" 0%nat None ∅ [] [].

(** One row, one text column, the cell (0, 0) selected. *)
Definition one_cell : Core Z :=
  sample_table [colA] [mkRow "r" 0 0%nat] sample_heap 1%nat (mkSel 0 0 0 0).

(** Three columns, the first two selected. *)
Definition three_cols : Core Z :=
  sample_table [colA; colB; colC] [mkRow "r" 0 0%nat] sample_heap 1%nat (mkSel 0 0 0 1).

(** A chain of three rows with indents 0, 1, 2. *)
Definition chain3 : Core Z :=
  sample_table [colA] [mkRow "p" 0 0%nat; mkRow "q" 1 1%nat; mkRow "s" 2 2%nat] ∅ 3%nat
    (mkSel 1 1 0 0).

(** Rows p (indent 0), q (1), s (0), nothing collapsed. *)
Definition outline3 : Core Z :=
  sample_table [colA] [mkRow "p" 0 0%nat; mkRow "q" 1 1%nat; mkRow "s" 0 2%nat] ∅ 3%nat NOSEL.

(** The middle row of the sample, under a collapsed row p, selected. *)
Definition outline3_hidden_sel : Core Z :=
  toggleCollapsed "p" (set_sel outline3 (mkSel 1 1 0 0)).

(** A clipboard reader splitting the text into lines at line feeds and
    each line into cells at tabs. *)
Fixpoint split_on (sep : ascii) (s : string) : list string :=
  match s with
  | EmptyString => [""%string]
  | String a s' =>
      if Ascii.eqb a sep then ""%string :: split_on sep s'
      else match split_on sep s' with
           | x :: xs => String a x :: xs
           | [] => [String a ""]
           end
  end.

Definition tab : ascii := ascii_of_nat 9.
Definition newline : ascii := ascii_of_nat 10.

Definition tsv_clipboard (txt : string) : list (list string) :=
  map (split_on tab) (split_on newline txt).

(** The text "1<TAB>2<LF>3<LF>4" of two lines of two cells. *)
Definition tsv_2x2 : string :=
  String "1" (String tab (String "2" (String newline (String "3" (String tab (String "4" EmptyString)))))).

(** Columns a, b; rows p (indent 0), q (1), s (0) with p collapsed, so
    that q is hidden; the cell (0, 1) selected. *)
Definition paste_table : Core Z :=
  toggleCollapsed "p"
    (sample_table [colA; colB] [mkRow "p" 0 0%nat; mkRow "q" 1 1%nat; mkRow "s" 0 2%nat]
       {[ 0%nat := {[ "a" := CStr "x" ]}; 1%nat := {[ "b" := CStr "w" ]} ]} 3%nat (mkSel 0 0 1 1)).

(** One datetime column holding "15.03.2026 10:30", the cell selected. *)
Definition colT : ColumnDef := mkCol "a" "T" (Some TDatetime) None.
Definition datetime_cell : Core Z :=
  sample_table [colT] [mkRow "r" 0 0%nat] {[ 0%nat := {[ "a" := CStr "15.03.2026 10:30" ]} ]} 1%nat
    (mkSel 0 0 0 0).

End Samples.

(* ================================================================== *)
(** * The outline formed by the indents                                *)
(* ================================================================== *)

Module Outline.
Import Grid.

(** Row [a] is an ancestor of row [j] when it comes before it and every
    row after [a] up to [j] (inclusive) is indented deeper than [a]; the
    rows [j] with [a] as ancestor form the contiguous run after [a] that
    ends before the next row of indent at most [a]'s. *)
Definition is_anc (rows : list RowData) (a j : nat) : bool :=
  (a <? j)%nat && forallb (fun k => indent (rows !!! a) <? indent (rows !!! k)) (seq (S a) (j - a)).

(** Row [a] is still open when row [i] is reached: every row strictly
    between them is indented deeper than [a]. *)
Definition is_open (rows : list RowData) (a i : nat) : bool :=
  (a <? i)%nat && forallb (fun k => indent (rows !!! a) <? indent (rows !!! k)) (seq (S a) (i - S a)).

(** The open rows at row [i], the most recent first. *)
Definition open_list (rows : list RowData) (i : nat) : list nat :=
  List.filter (fun a => is_open rows a i) (rev (seq 0 i)).

(** The stack entry [visibleRowIndices] pushes for row [a]. *)
Definition vis_entry (rows : list RowData) (hc : gset nat) (coll : gset string) (a : nat) : VisEntry :=
  mkVis (id (rows !!! a)) (indent (rows !!! a))
    (if bool_decide (a ∈ hc) then bool_decide (id (rows !!! a) ∈ coll) else false).

(** Row [j] has an ancestor whose stack entry is flagged collapsed. *)
Definition hidden_b (rows : list RowData) (hc : gset nat) (coll : gset string) (j : nat) : bool :=
  existsb (fun a => is_anc rows a j && ve_collapsed (vis_entry rows hc coll a)) (seq 0 j).

End Outline.

(* ================================================================== *)
(** * The proleptic Gregorian calendar                                 *)
(* ================================================================== *)

Module Calendar.

Definition leap (y : Z) : bool :=
  ((y mod 4 =? 0) && negb (y mod 100 =? 0)) || (y mod 400 =? 0).

Definition days_in_month (y m : Z) : Z :=
  if m =? 2 then (if leap y then 29 else 28)
  else if (m =? 4) || (m =? 6) || (m =? 9) || (m =? 11) then 30
  else 31.

(** A calendar date with an optional time of day in range. *)
Definition valid_date (y m d : Z) : Prop := 1 <= m <= 12 /\ 1 <= d <= days_in_month y m.
Definition valid_time (hh mi ss : Z) : Prop := 0 <= hh <= 23 /\ 0 <= mi <= 59 /\ 0 <= ss <= 59.

(** Checking a property of every integer of [lo, hi]. *)
Fixpoint forall_from (lo : Z) (n : nat) (f : Z -> bool) : bool :=
  match n with
  | O => true
  | S n' => f lo && forall_from (lo + 1) n' f
  end.
Definition forall_in (lo hi : Z) (f : Z -> bool) : bool :=
  forall_from lo (Z.to_nat (hi - lo + 1)) f.

(** The two halves of [days_from_civil] and [civil_from_days] inside one
    400-year era: day of era from (year of era, month, day), and back. *)
Definition encode_doe (yoe m d : Z) : Z :=
  let mp := (m + 9) mod 12 in
  let doy := (153 * mp + 2) / 5 + d - 1 in
  yoe * 365 + yoe / 4 - yoe / 100 + doy.

Definition decode_doe (doe : Z) : Z * Z * Z :=
  let yoe := (doe - doe / 1460 + doe / 36524 - doe / 146096) / 365 in
  let doy := doe - (365 * yoe + yoe / 4 - yoe / 100) in
  let mp := (5 * doy + 2) / 153 in
  let d := doy - (153 * mp + 2) / 5 + 1 in
  let m := if mp <? 10 then mp + 3 else mp - 9 in
  (yoe, m, d).

Definition era_ok : bool :=
  forall_in 0 399 (fun yoe =>
  forall_in 1 12 (fun m =>
  forall_in 1 (days_in_month (if m <=? 2 then yoe + 1 else yoe) m) (fun d =>
    let doe := encode_doe yoe m d in
    let '(yoe', m', d') := decode_doe doe in
    (0 <=? doe) && (doe <? 146097) && (yoe' =? yoe) && (m' =? m) && (d' =? d)))).

End Calendar.

Module JsFacts.
Import Js.
Local Open Scope string_scope.

Fixpoint all_digits (g : string) : bool :=
  match g with
  | EmptyString => true
  | String a g' => is_digit a && all_digits g'
  end.

(** The first character of [s] is not a digit. *)
Definition stops_digits (s : string) : bool :=
  match s with EmptyString => true | String a _ => negb (is_digit a) end.

Lemma digit_not_ws (a : ascii) : is_digit a = true -> is_ws a = false.
Proof.
  destruct a as [[] [] [] [] [] [] [] []]; vm_compute; congruence.
Qed.

Lemma span_digits_app (g s : string) :
  all_digits g = true -> stops_digits s = true -> span is_digit (g ++ s) = (g, s).
Proof.
  intros Hg Hs. induction g as [|a g IH]; simpl in *.
  - destruct s as [|b s]; simpl in *; [reflexivity|].
    destruct (is_digit b); [discriminate|reflexivity].
  - apply andb_true_iff in Hg as [Ha Hg]. rewrite Ha, (IH Hg). reflexivity.
Qed.

Lemma str_app_assoc (s t u : string) : (s ++ t) ++ u = s ++ (t ++ u).
Proof. induction s; simpl; congruence. Qed.

Lemma str_app_nil (s : string) : s ++ "" = s.
Proof. induction s; simpl; congruence. Qed.

Lemma rev_str_app (s t acc : string) :
  rev_str (s ++ t) acc = rev_str t (rev_str s acc).
Proof. revert acc; induction s; simpl; auto. Qed.

Lemma rev_str_acc (s acc : string) : rev_str s acc = rev_str s "" ++ acc.
Proof.
  revert acc; induction s as [|a s IH]; intros acc; simpl; [reflexivity|].
  rewrite (IH (String a acc)), (IH (String a "")).
  rewrite str_app_assoc. reflexivity.
Qed.

Lemma rev_str_involutive (s : string) : rev_str (rev_str s "") "" = s.
Proof.
  induction s as [|a s IH]; simpl; [reflexivity|].
  rewrite (rev_str_acc s (String a "")), rev_str_app. simpl. rewrite IH. reflexivity.
Qed.

Lemma trim_id (a b : ascii) (m : string) :
  is_ws a = false -> is_ws b = false ->
  trim (String a (m ++ String b "")) = String a (m ++ String b "").
Proof.
  intros Ha Hb. unfold trim.
  assert (E : rev_str (String a (m ++ String b "")) "" = String b (rev_str (String a m) "")).
  { change (String a (m ++ String b "")) with ((String a m) ++ String b "").
    rewrite rev_str_app. reflexivity. }
  replace (strip_start (String a (m ++ String b ""))) with (String a (m ++ String b ""))
    by (simpl; rewrite Ha; reflexivity).
  rewrite E.
  replace (strip_start (String b (rev_str (String a m) ""))) with (String b (rev_str (String a m) ""))
    by (simpl; rewrite Hb; reflexivity).
  rewrite <- E. apply rev_str_involutive.
Qed.

Lemma all_digits_app (g h : string) :
  all_digits (g ++ h) = all_digits g && all_digits h.
Proof. induction g; simpl; [reflexivity|]. rewrite IHg, andb_assoc. reflexivity. Qed.

(** A non-empty digit string ends with a digit. *)
Lemma all_digits_snoc (g : string) :
  all_digits g = true -> g <> "" ->
  exists p b, g = p ++ String b "" /\ is_digit b = true /\ all_digits p = true.
Proof.
  induction g as [|a g IH]; intros Hg Hne; [congruence|].
  simpl in Hg. apply andb_true_iff in Hg as [Ha Hg].
  destruct g as [|a' g'].
  - exists "", a. auto.
  - destruct (IH Hg ltac:(discriminate)) as (p & b & -> & Hb & Hp).
    exists (String a p), b. simpl. rewrite Ha, Hp. auto.
Qed.

End JsFacts.

Module IsoInput.
Import Js JsDate DateCodec JsFacts Calendar.

(** [String(n)] is a digit group of [w] digits that reads back as [n]. *)
Definition digit_group (w : nat) (s : string) (n : Z) : bool :=
  all_digits s && (String.length s =? w)%nat && (Number_digits s =? n).

Definition years_ok : bool := forall_in 1000 9999 (fun y => digit_group 4 (String_of_Z y) y).
Definition days_ok : bool := forall_in 1 31 (fun n => digit_group 2 (padStart2 (String_of_Z n)) n).

End IsoInput.

Module DateFacts.
Import Js JsDate DateCodec JsFacts.
Local Open Scope string_scope.

Lemma digits_n_app (lo hi : nat) (g s : string) :
  all_digits g = true -> stops_digits s = true ->
  digits_n lo hi (g ++ s) =
    if (lo <=? String.length g)%nat && (String.length g <=? hi)%nat then Some (g, s) else None.
Proof. intros Hg Hs. unfold digits_n. rewrite span_digits_app by assumption. reflexivity. Qed.

Lemma length_app (s t : string) : String.length (s ++ t) = (String.length s + String.length t)%nat.
Proof. induction s; simpl; auto. Qed.

(** A string [ga/gb/gy] of digit groups is left alone by [trim]. *)
Lemma trim_dmy (sep : ascii) (ga gb gy : string) :
  is_ws sep = false ->
  all_digits ga = true -> ga <> "" -> all_digits gy = true -> gy <> "" ->
  trim (ga ++ String sep (gb ++ String sep gy)) = ga ++ String sep (gb ++ String sep gy).
Proof.
  intros Hsep Ha Hane Hy Hyne.
  destruct ga as [|a0 ga']; [congruence|].
  destruct (all_digits_snoc gy Hy Hyne) as (p & b0 & -> & Hb0 & _).
  simpl in Ha. apply andb_true_iff in Ha as [Ha0 _].
  assert (E : String a0 ga' ++ String sep (gb ++ String sep (p ++ String b0 ""))
             = String a0 ((ga' ++ String sep (gb ++ String sep p)) ++ String b0 ""))
    by (do 4 (simpl; rewrite ?str_app_assoc); reflexivity).
  rewrite E.
  apply trim_id; apply digit_not_ws; assumption.
Qed.

Ltac bool_facts :=
  repeat match goal with
  | H : (_ <= _ <= _)%nat |- _ => destruct H
  | |- context [(?x <=? ?y)%nat] =>
      first [ rewrite (proj2 (Nat.leb_le x y)) by lia
            | rewrite (proj2 (Nat.leb_gt x y)) by lia ]
  end.

Lemma slash_form_fields (ga gb gy : string) :
  all_digits ga = true -> (1 <= String.length ga <= 2)%nat ->
  all_digits gb = true -> (1 <= String.length gb <= 2)%nat ->
  all_digits gy = true -> String.length gy = 4%nat ->
  let s := ga ++ String "/" (gb ++ String "/" gy) in
  String.eqb s "" = false /\ trim s = s /\
  match_iso s = None /\ match_dot s = None /\
  match_slash s = Some (ga, gb, gy, None, None).
Proof.
  intros Ha La Hb Lb Hy Ly s.
  assert (Hane : ga <> "") by (intros ->; simpl in La; lia).
  assert (Hyne : gy <> "") by (intros ->; simpl in Ly; lia).
  split; [destruct ga; [congruence|reflexivity]|].
  split; [apply trim_dmy; auto|].
  unfold s, match_iso, match_dot, match_slash, match_dmy.
  rewrite !digits_n_app by (simpl; auto).
  bool_facts.
  destruct (Nat.leb_spec 4 (String.length ga)); [lia|]. simpl.
  split; [reflexivity|].
  split; [reflexivity|].
  rewrite digits_n_app by (simpl; auto). bool_facts. simpl.
  rewrite <- (str_app_nil gy) at 1.
  rewrite digits_n_app by (simpl; auto). rewrite Ly. reflexivity.
Qed.

(** [parseDateFlexible] builds its date from [date_fields]. *)
Lemma parse_fields (input : string) (patternHint : option string) :
  parseDateFlexible input patternHint =
    match date_fields input patternHint with
    | Some (y, m, d, hh, mi, ss) => date_or_null (new_Date y (m - 1) d hh mi ss)
    | None => None
    end.
Proof.
  unfold parseDateFlexible, date_fields.
  destruct (String.eqb input ""); [reflexivity|].
  destruct (String.eqb (trim input) ""); [reflexivity|].
  destruct (match_iso (trim input)) as [[[[[[g1 g2] g3] g4] g5] g6]|]; [reflexivity|].
  destruct (match_dot (trim input)) as [[[[[g1 g2] g3] g4] g5]|]; [reflexivity|].
  destruct (match_slash (trim input)) as [[[[[g1 g2] g3] g4] g5]|]; [|reflexivity].
  destruct (slash_day_month _ _ _). reflexivity.
Qed.

End DateFacts.

Module CalendarFacts.
Import JsDate Calendar.

Lemma forall_from_spec (f : Z -> bool) (n : nat) (lo : Z) :
  forall_from lo n f = true -> forall x, lo <= x < lo + Z.of_nat n -> f x = true.
Proof.
  revert lo; induction n as [|n IH]; intros lo H x Hx; simpl in *; [lia|].
  apply andb_true_iff in H as [H1 H2].
  destruct (Z.eq_dec x lo) as [->|Hne]; [assumption|].
  apply (IH (lo + 1)); [assumption|lia].
Qed.

Lemma forall_in_spec (f : Z -> bool) (lo hi : Z) :
  forall_in lo hi f = true -> forall x, lo <= x <= hi -> f x = true.
Proof.
  intros H x Hx. apply (forall_from_spec f _ lo H). lia.
Qed.

Lemma era_ok_true : era_ok = true.
Proof. exact (@eq_refl bool true <: era_ok = true). Qed.

(** Conversions unfold [era_ok] before [forall_in]. *)
Strategy expand [era_ok].

Lemma era_round (yoe m d : Z) :
  0 <= yoe <= 399 -> 1 <= m <= 12 ->
  1 <= d <= days_in_month (if m <=? 2 then yoe + 1 else yoe) m ->
  0 <= encode_doe yoe m d < 146097 /\ decode_doe (encode_doe yoe m d) = (yoe, m, d).
Proof.
  intros Hy Hm Hd.
  pose proof (forall_in_spec _ _ _ era_ok_true yoe Hy) as H1. cbv beta in H1.
  pose proof (forall_in_spec _ _ _ H1 m Hm) as H2. cbv beta in H2.
  pose proof (forall_in_spec _ _ _ H2 d Hd) as H3. cbv beta zeta in H3.
  destruct (decode_doe (encode_doe yoe m d)) as [[yoe' m'] d'].
  repeat rewrite andb_true_iff in H3.
  destruct H3 as [[[[A B] C] D] E].
  apply Z.leb_le in A; apply Z.ltb_lt in B; apply Z.eqb_eq in C, D, E. subst. auto.
Qed.

Lemma leap_mod (y : Z) : leap y = leap (y mod 400).
Proof.
  unfold leap.
  rewrite (Z.mod_mod_divide y 400 4) by (exists 100; reflexivity).
  rewrite (Z.mod_mod_divide y 400 100) by (exists 4; reflexivity).
  rewrite Z.mod_mod by lia. reflexivity.
Qed.

Lemma days_from_civil_eq (y m d : Z) :
  days_from_civil y m d =
    let y' := if m <=? 2 then y - 1 else y in
    let era := y' / 400 in
    era * 146097 + encode_doe (y' - era * 400) m d - 719468.
Proof. reflexivity. Qed.

Lemma civil_from_days_eq (z : Z) :
  civil_from_days z =
    let era := (z + 719468) / 146097 in
    let '(yoe, m, d) := decode_doe (z + 719468 - era * 146097) in
    (if m <=? 2 then yoe + era * 400 + 1 else yoe + era * 400, m, d).
Proof. reflexivity. Qed.

Lemma civil_roundtrip (y m d : Z) :
  valid_date y m d -> civil_from_days (days_from_civil y m d) = (y, m, d).
Proof.
  intros [Hm Hd]. rewrite days_from_civil_eq, civil_from_days_eq. cbv zeta.
  set (y' := if m <=? 2 then y - 1 else y).
  set (era := y' / 400).
  set (yoe := y' - era * 400).
  assert (Hyoe : 0 <= yoe <= 399) by (unfold yoe, era; Z.div_mod_to_equations; lia).
  assert (Hd' : 1 <= d <= days_in_month (if m <=? 2 then yoe + 1 else yoe) m).
  { unfold days_in_month in *. destruct (Z.eqb_spec m 2) as [->|]; [|assumption].
    simpl. replace (leap (yoe + 1)) with (leap y); [assumption|].
    rewrite (leap_mod y), (leap_mod (yoe + 1)). f_equal.
    unfold yoe, era, y'. simpl. Z.div_mod_to_equations; lia. }
  destruct (era_round yoe m d Hyoe Hm Hd') as [Hb Hdec].
  set (doe := encode_doe yoe m d) in *.
  replace (era * 146097 + doe - 719468 + 719468) with (era * 146097 + doe) by lia.
  assert (Eq : (era * 146097 + doe) / 146097 = era) by (Z.div_mod_to_equations; lia).
  rewrite Eq.
  replace (era * 146097 + doe - era * 146097) with doe by lia.
  rewrite Hdec.
  f_equal; f_equal.
  unfold yoe, y'. destruct (Z.leb_spec m 2); lia.
Qed.

Lemma MakeDay_valid (y m d : Z) :
  1 <= m <= 12 -> MakeDay y (m - 1) d = days_from_civil y m d.
Proof.
  intros Hm. unfold MakeDay.
  rewrite (Z.div_small (m - 1) 12), (Z.mod_small (m - 1) 12) by lia.
  replace (y + 0) with y by lia. replace (m - 1 + 1) with m by lia.
  unfold days_from_civil. cbv zeta. lia.
Qed.

Lemma days_from_civil_bounds (y m d : Z) :
  100 <= y <= 9999 -> 1 <= m <= 12 -> 1 <= d <= 31 ->
  - 719468 <= days_from_civil y m d <= 4000000.
Proof.
  intros Hy Hm Hd. rewrite days_from_civil_eq. cbv zeta. unfold encode_doe.
  destruct (Z.leb_spec m 2); Z.div_mod_to_equations; lia.
Qed.

Lemma days_in_month_le (y m : Z) : days_in_month y m <= 31.
Proof. unfold days_in_month. destruct (m =? 2), (leap y); try lia; destruct (_ || _); lia. Qed.

(** [new Date(y, m - 1, d, hh, mi, ss)] on a valid date and time is a
    valid instant whose getters return the date back. *)
Lemma new_Date_getters (y m d hh mi ss : Z) :
  100 <= y <= 9999 -> valid_date y m d -> valid_time hh mi ss ->
  exists t, new_Date y (m - 1) d hh mi ss = Some t /\
            getFullYear t = y /\ getMonth t = m - 1 /\ getDate t = d.
Proof.
  intros Hy Hv Ht. pose proof Hv as [Hm Hd]. pose proof (days_in_month_le y m).
  destruct Ht as (Hh & Hmi & Hs).
  unfold new_Date.
  replace ((0 <=? y) && (y <=? 99)) with false
    by (destruct (Z.leb_spec 0 y), (Z.leb_spec y 99); simpl; lia).
  rewrite MakeDay_valid by assumption.
  pose proof (days_from_civil_bounds y m d Hy Hm ltac:(lia)) as Hb.
  set (day := days_from_civil y m d) in *.
  set (time := MakeTime hh mi ss 0).
  assert (Htime : 0 <= time < msPerDay) by (unfold time, MakeTime, msPerDay; lia).
  unfold TimeClip, MakeDate.
  rewrite (proj2 (Z.leb_le _ _)) by (unfold msPerDay in *; lia).
  exists (day * msPerDay + time). split; [reflexivity|].
  assert (HD : Day (day * msPerDay + time) = day).
  { unfold Day. rewrite Z.div_add_l by (unfold msPerDay; lia).
    rewrite Z.div_small by assumption. lia. }
  unfold getFullYear, getMonth, getDate. rewrite HD. unfold day.
  rewrite civil_roundtrip by assumption. auto.
Qed.

End CalendarFacts.


Module DateTheorems.
Import Js JsDate DateCodec JsFacts DateFacts Calendar CalendarFacts.
Local Open Scope string_scope.

(** C2: in the slash form [a/b/yyyy] the day and the month are resolved
    as follows: when exactly one of a and b exceeds 12 it is the day;
    otherwise a is the day iff the pattern hint is absent (or empty) or
    begins with the day token "dd" (compared in lower case), and b is the
    day otherwise.  The date built is [new Date(yyyy, month - 1, day)]. *)
Theorem parseDateFlexible_slash_resolution (ga gb gy : string) (patternHint : option string) :
  all_digits ga = true -> (1 <= String.length ga <= 2)%nat ->
  all_digits gb = true -> (1 <= String.length gb <= 2)%nat ->
  all_digits gy = true -> String.length gy = 4%nat ->
  let a := Number_digits ga in
  let b := Number_digits gb in
  let yyyy := Number_digits gy in
  let s := ga ++ "/" ++ gb ++ "/" ++ gy in
  let with_day_month (dd mm : Z) := date_or_null (new_Date yyyy (mm - 1) dd 0 0 0) in
  let day_first :=
    match patternHint with
    | None => true
    | Some h => String.eqb h "" || startsWith (toLowerCase h) "dd"
    end in
  (12 < a -> b <= 12 -> parseDateFlexible s patternHint = with_day_month a b) /\
  (12 < b -> a <= 12 -> parseDateFlexible s patternHint = with_day_month b a) /\
  ((12 < a <-> 12 < b) ->
     parseDateFlexible s patternHint =
       if day_first then with_day_month a b else with_day_month b a).
Proof.
  intros Ha La Hb Lb Hy Ly a b yyyy s with_day_month day_first.
  destruct (slash_form_fields ga gb gy Ha La Hb Lb Hy Ly) as (E0 & Et & Ei & Ed & Es).
  assert (P : parseDateFlexible s patternHint =
              let '(dd, mm) := slash_day_month a b patternHint in with_day_month dd mm).
  { change s with (ga ++ String "/" (gb ++ String "/" gy)).
    unfold parseDateFlexible. rewrite E0, Et, E0, Ei, Ed, Es. reflexivity. }
  rewrite P. unfold slash_day_month. cbv zeta.
  assert (Hdf : (startsWith (toLowerCase (default "" patternHint)) "dd"
                 || match patternHint with None => true | Some h => String.eqb h "" end)
                = day_first).
  { unfold day_first. destruct patternHint as [h|]; simpl; [apply orb_comm|reflexivity]. }
  rewrite Hdf.
  split; [|split]; intros;
    destruct (Z.ltb_spec 12 a), (Z.leb_spec b 12), (Z.ltb_spec 12 b), (Z.leb_spec a 12);
    simpl; try lia; try reflexivity; destruct day_first; reflexivity.
Qed.

(** C1 (evaluation at the failing input): "31.02.2026" and "32.01.2026"
    are not rejected; [new Date] rolls them over to 3 March 2026 and to
    1 February 2026, and the [isNaN] check does not fire. *)
Theorem parseDateFlexible_rolls_over_invalid_days :
  (exists t, parseDateFlexible "31.02.2026" None = Some t /\
             getFullYear t = 2026 /\ getMonth t + 1 = 3 /\ getDate t = 3) /\
  (exists t, parseDateFlexible "32.01.2026" None = Some t /\
             getFullYear t = 2026 /\ getMonth t + 1 = 2 /\ getDate t = 1).
Proof.
  split.
  - exists 1772496000000. vm_compute. auto.
  - exists 1769904000000. vm_compute. auto.
Qed.

(** C9 (amended): when [parseDateFlexible s p] reads a valid calendar
    date (year y in 100..9999, month m, day d, in range time of day) from
    s, formatting the result with the same pattern p substitutes y and
    the two-digit m and d for the first "yyyy", "mm" and "dd" of p. *)
Theorem formatDateByPattern_parse_same_pattern (s p : string) (y m d hh mi ss : Z) :
  date_fields s (Some p) = Some (y, m, d, hh, mi, ss) ->
  100 <= y <= 9999 -> valid_date y m d -> valid_time hh mi ss ->
  formatDateByPattern (parseDateFlexible s (Some p)) p =
    replace_first "dd" (padStart2 (String_of_Z d))
      (replace_first "mm" (padStart2 (String_of_Z m))
        (replace_first "yyyy" (String_of_Z y) p)).
Proof.
  intros Hf Hy Hv Ht.
  rewrite parse_fields, Hf.
  destruct (new_Date_getters y m d hh mi ss Hy Hv Ht) as (t & E & Y & M & D).
  rewrite E. unfold date_or_null, isNaN, formatDateByPattern.
  rewrite Y, M, D. replace (m - 1 + 1) with m by lia. reflexivity.
Qed.

Lemma formatDateByPattern_parse_same_pattern_witness :
  formatDateByPattern (parseDateFlexible "05.01.2026" (Some "dd.mm.yyyy")) "dd.mm.yyyy"
  = "05.01.2026".
Proof.
  exact (formatDateByPattern_parse_same_pattern "05.01.2026" "dd.mm.yyyy" 2026 1 5 0 0 0
           eq_refl ltac:(lia) ltac:(split; vm_compute; split; discriminate)
           ltac:(repeat split; vm_compute; discriminate)).
Defined.

(** C9 (counterexample): with the pattern "dd.mm.yy" the date
    "05.01.2026" is accepted, but formatting it with the same pattern
    gives "05.01.yy", which has lost the year. *)
Lemma formatDateByPattern_same_pattern_loses_year :
  parseDateFlexible "05.01.2026" (Some "dd.mm.yy") <> None /\
  formatDateByPattern (parseDateFlexible "05.01.2026" (Some "dd.mm.yy")) "dd.mm.yy"
  = "05.01.yy".
Proof. split; vm_compute; [discriminate|reflexivity]. Qed.

Lemma parseDateFlexible_slash_resolution_witness :
  parseDateFlexible "02/03/2026" (Some "mm/dd/yyyy")
  = date_or_null (new_Date 2026 (2 - 1) 3 0 0 0).
Proof.
  destruct (parseDateFlexible_slash_resolution "02" "03" "2026" (Some "mm/dd/yyyy")
              eq_refl ltac:(simpl; lia) eq_refl ltac:(simpl; lia) eq_refl eq_refl)
    as [_ [_ H]].
  exact (H ltac:(vm_compute; split; intro Hc; discriminate Hc)).
Defined.

End DateTheorems.

(* ================================================================== *)
(** * Editing sessions and commits                                     *)
(* ================================================================== *)

Module CommitTheorems.
Import Js DateCodec Grid Ops.

Section Commit.
Context {num : Type}.
Variable Number : string -> num.
Variable NumberToString : num -> string.
Variable dateFormat : string.

Lemma commitEdit_guard (st : Core num) r c v :
  lastCommittedSession st = Some (editSessionId st) ->
  commitEdit Number dateFormat r c v st = Done st.
Proof.
  intros H. unfold commitEdit. rewrite decide_True by exact H. reflexivity.
Qed.

Lemma commit_calls_guarded (calls : list (Z * Z * string)) (st : Core num) :
  lastCommittedSession st = Some (editSessionId st) ->
  commit_calls Number dateFormat calls st = Done st.
Proof.
  intros H. induction calls as [|[[r c] v] calls IH]; simpl; [reflexivity|].
  rewrite commitEdit_guard by exact H. exact IH.
Qed.

Lemma commitEdit_first (st : Core num) r c v col :
  lastCommittedSession st <> Some (editSessionId st) ->
  nth_z (cols st) c = Some col ->
  exists st2,
    commitEdit Number dateFormat r c v st = Done st2 /\
    host_rows st2 = host_rows st ++ [data st2] /\
    commits st2 = commits st ++ [mkCommit r c (key col) (cell_at st r (key col))
                                   (coerce Number dateFormat col v)] /\
    lastCommittedSession st2 = Some (editSessionId st2).
Proof.
  intros Hg Hc. unfold commitEdit. rewrite decide_False by exact Hg.
  unfold commitCellValue. simpl. rewrite Hc.
  unfold cell_at. simpl.
  destruct (nth_z (data st) r) as [row|];
    eexists; (split; [reflexivity|]); simpl; repeat split.
Qed.

Lemma startEditing_opens_session (e : EditingState) (st st1 : Core num) :
  startEditing NumberToString e st = Done st1 -> lastCommittedSession st1 = None.
Proof.
  unfold startEditing. simpl.
  destruct (nth_z (data st) (er e)); [destruct (nth_z (cols st) (ec e))|];
    intros H; inversion H; reflexivity.
Qed.

(** With an existing column, [startEditing] opens the editor on the text
    of [cell_at] (undefined on a missing row). *)
Lemma startEditing_col (e : EditingState) (st : Core num) col :
  nth_z (cols st) (ec e) = Some col ->
  startEditing NumberToString e st =
    Done (set_editing (set_editValue (set_session st (S (editSessionId st)) None)
            (match mode e with
             | Replace => default "" (seed e)
             | _ => cell_text NumberToString (cell_at st (er e) (key col))
             end)) (Some e)).
Proof.
  intros Hc. unfold startEditing, cell_at. simpl.
  destruct (nth_z (data st) (er e)); [rewrite Hc|]; reflexivity.
Qed.

(** C3: in an editing session opened by [startEditing], any non-empty
    sequence of [commitEdit] calls whose first call names an existing
    column ends in the state left by the first call; that call hands
    exactly one new collection to the host and emits exactly one commit
    record, with the previous and the new value (whether they differ or
    not), and every later call of the session changes nothing. *)
Theorem commitEdit_once_per_session (e : EditingState) (st st1 : Core num)
  (r0 c0 : Z) (v0 : string) (rest : list (Z * Z * string)) (col : ColumnDef) :
  startEditing NumberToString e st = Done st1 ->
  nth_z (cols st1) c0 = Some col ->
  exists st2,
    commit_calls Number dateFormat ((r0, c0, v0) :: rest) st1 = Done st2 /\
    commitEdit Number dateFormat r0 c0 v0 st1 = Done st2 /\
    host_rows st2 = host_rows st1 ++ [data st2] /\
    commits st2 = commits st1 ++ [mkCommit r0 c0 (key col) (cell_at st1 r0 (key col))
                                    (coerce Number dateFormat col v0)] /\
    forall later, commit_calls Number dateFormat later st2 = Done st2.
Proof.
  intros Hs Hc.
  pose proof (startEditing_opens_session e st st1 Hs) as Hn.
  destruct (commitEdit_first st1 r0 c0 v0 col) as (st2 & E & Hh & Hm & Hg);
    [rewrite Hn; discriminate | exact Hc |].
  exists st2. simpl. rewrite E. repeat split; try assumption.
  - apply commit_calls_guarded. exact Hg.
  - intros later. apply commit_calls_guarded. exact Hg.
Qed.

End Commit.

Import Samples.

(** Two commits of one session on the sample table, the first writing
    back the value the cell already holds: one record is emitted. *)
Lemma commitEdit_once_per_session_witness :
  exists st1, startEditing sample_String (mkEdit 0 0 CaretEnd None) one_cell = Done st1 /\
    exists st2,
      commit_calls sample_Number "dd.mm.yyyy" [(0, 0, "x"); (0, 0, "z")] st1 = Done st2 /\
      commits st2 = [mkCommit 0 0 "a" (CStr "x") (CStr "x")].
Proof.
  eexists. split; [reflexivity|].
  destruct (commitEdit_once_per_session sample_Number sample_String "dd.mm.yyyy"
              (mkEdit 0 0 CaretEnd None) one_cell _ 0 0 "x" [(0, 0, "z")] colA eq_refl eq_refl)
    as (st2 & E & _ & _ & Hm & _).
  exists st2. split; [exact E|]. rewrite Hm. reflexivity.
Defined.

End CommitTheorems.

(* ================================================================== *)
(** * The selection rectangle                                          *)
(* ================================================================== *)

Module SelectionTheorems.
Import Grid Ops Samples.

(** A pointer drag sets an ordered rectangle: [onMouseMove] takes the
    minimum and maximum of the anchor and the cell under the pointer. *)
Lemma onMouseMove_ordered ds clientX clientY target d' s :
  onMouseMove ds clientX clientY target = (d', Some s) -> r1 s <= r2 s /\ c1 s <= c2 s.
Proof.
  unfold onMouseMove. destruct ds as [d|]; [|intros H; discriminate H].
  destruct (active d); simpl; [|intros H; discriminate H].
  destruct (negb (dragging d) && _); simpl;
    [|destruct (negb (dragging d)); [intros H; discriminate H|]];
    destruct target as [[r c]|]; intros H; inversion H; simpl; lia.
Qed.

(** C4 (failing input): with the columns a, b, c and the first two
    selected (c1 = 0, c2 = 1), dropping column 0 on position 2 gives the
    order b, c, a; the remap sends c1 to 2 and c2 to 0, so the selection
    left behind has c1 > c2 and breaks the invariant that held before. *)
Lemma column_reorder_unorders_selection :
  sel_ok 1 3 (sel three_cols) = true /\
  match onDrop (Some 0) 2 three_cols with
  | Done st =>
      map key (cols st) = ["b"; "c"; "a"] /\ sel st = mkSel 0 0 2 0 /\
      sel_ok (length (data st)) (length (cols st)) (sel st) = false
  | Throws _ => False
  end.
Proof. split; [reflexivity|]. vm_compute. repeat split. Qed.

End SelectionTheorems.

(* ================================================================== *)
(** * Indentation                                                       *)
(* ================================================================== *)

Module IndentTheorems.
Import Grid Ops Samples.

Lemma indent_ok_spec (rows : list RowData) :
  indent_ok rows = true <->
  forall i, (i < length rows)%nat ->
    0 <= indent (rows !!! i) /\ indent (rows !!! i) <= prevIndentOf rows i + 1.
Proof.
  unfold indent_ok. rewrite forallb_forall. split.
  - intros H i Hi. specialize (H i). rewrite in_seq in H.
    specialize (H ltac:(lia)). apply andb_prop in H as [H1 H2]. lia.
  - intros H i Hi. rewrite in_seq in Hi. specialize (H i ltac:(lia)).
    apply andb_true_intro. lia.
Qed.

(** [arr.map((r, i) => i === k ? g(r) : r)] replaces the element [k]. *)
Lemma imap_at_eq (l : list RowData) (k : nat) (r : Z) (cur : RowData) (g : RowData -> RowData) :
  r = Z.of_nat k ->
  l !! k = Some cur ->
  imap (fun i x => if decide (Z.of_nat i = r) then g x else x) l = <[k := g cur]> l.
Proof.
  intros -> Hk. apply list_eq. intros i. rewrite list_lookup_imap.
  destruct (decide (i = k)) as [->|Hne].
  - rewrite list_lookup_insert_eq by (eapply lookup_lt_Some; exact Hk).
    rewrite Hk. simpl. rewrite decide_True by reflexivity. reflexivity.
  - rewrite list_lookup_insert_ne by congruence.
    destruct (l !! i); simpl; [rewrite decide_False by lia|]; reflexivity.
Qed.

Lemma prevIndentOf_insert (rows : list RowData) k x i :
  i <> S k -> prevIndentOf (<[k := x]> rows) i = prevIndentOf rows i.
Proof.
  intros Hi. destruct i as [|j]; simpl; [reflexivity|].
  rewrite list_lookup_total_insert_ne by congruence. reflexivity.
Qed.

Lemma nth_z_Some {A} (l : list A) r x :
  nth_z l r = Some x -> 0 <= r /\ l !! Z.to_nat r = Some x.
Proof.
  unfold nth_z. destruct (Z.ltb_spec r 0); [discriminate|]. auto.
Qed.

(** Replacing the indent of row [k] by a value in [[0, prev + 1]] keeps
    the indent invariant when the next row stays within one level below. *)
Lemma indent_ok_insert (rows : list RowData) k cur ni :
  indent_ok rows = true ->
  rows !! k = Some cur ->
  0 <= ni <= prevIndentOf rows k + 1 ->
  (forall nx, rows !! S k = Some nx -> indent nx <= ni + 1) ->
  indent_ok (<[k := mkRow (id cur) ni (cells cur)]> rows) = true.
Proof.
  intros Hok Hk Hni Hnext. rewrite indent_ok_spec in *. rewrite length_insert.
  intros i Hi.
  pose proof (lookup_lt_Some _ _ _ Hk) as Hkl.
  destruct (decide (i = k)) as [->|Hne].
  - rewrite list_lookup_total_insert_eq by exact Hkl.
    rewrite prevIndentOf_insert by lia. simpl. exact Hni.
  - rewrite list_lookup_total_insert_ne by congruence.
    destruct (decide (i = S k)) as [->|Hne2].
    + simpl. rewrite list_lookup_total_insert_eq by exact Hkl. simpl.
      split; [apply (Hok (S k) Hi)|].
      apply Hnext. apply list_lookup_lookup_total_lt. exact Hi.
    + rewrite prevIndentOf_insert by exact Hne2. apply Hok. exact Hi.
Qed.

Lemma indentRow_prevIndent (rows : list RowData) (r : Z) :
  0 <= r ->
  (if 0 <? r then indent (rows !!! Z.to_nat (r - 1)) else 0) = prevIndentOf rows (Z.to_nat r).
Proof.
  intros Hr. unfold prevIndentOf. destruct (Z.ltb_spec 0 r).
  - replace (Z.to_nat r) with (S (Z.to_nat (r - 1))) by lia. reflexivity.
  - replace (Z.to_nat r) with 0%nat by lia. reflexivity.
Qed.

(** C5 (amended): [indentRow r d] with [r] out of range changes nothing;
    otherwise it only replaces the indent of row [r] by
    [clamp(indent + d, 0, prev + 1)], [prev] being the indent of the row
    before (0 for row 0).  On a collection that satisfies the indent
    invariant the new indent lies in [[0, prev + 1]], and the invariant
    still holds afterwards when [d >= 0] (Alt+Right), or when the row
    after [r] has an indent at most one above the new one. *)
Theorem indentRow_clamps_adjusted_row {num} (st : Core num) (r d : Z) :
  (nth_z (data st) r = None -> indentRow r d st = st) /\
  (forall cur, nth_z (data st) r = Some cur ->
     let k := Z.to_nat r in
     let ni := clamp (indent cur + d) 0 (prevIndentOf (data st) k + 1) in
     data (indentRow r d st) = <[k := mkRow (id cur) ni (cells cur)]> (data st) /\
     (indent_ok (data st) = true ->
      0 <= ni <= prevIndentOf (data st) k + 1 /\
      ((0 <= d \/ forall nx, data st !! S k = Some nx -> indent nx <= ni + 1) ->
       indent_ok (data (indentRow r d st)) = true))).
Proof.
  split.
  - intros H. unfold indentRow. rewrite H. reflexivity.
  - intros cur H. cbv zeta. pose proof H as H'. apply nth_z_Some in H' as [Hr Hk].
    assert (Hdata : data (indentRow r d st) =
              <[Z.to_nat r := mkRow (id cur)
                  (clamp (indent cur + d) 0 (prevIndentOf (data st) (Z.to_nat r) + 1))
                  (cells cur)]> (data st)).
    { unfold indentRow. rewrite H. rewrite indentRow_prevIndent by exact Hr.
      destruct (Z.eqb_spec (clamp (indent cur + d) 0 (prevIndentOf (data st) (Z.to_nat r) + 1))
                  (indent cur)) as [E|E].
      - rewrite E. symmetry. apply list_insert_id. destruct cur. exact Hk.
      - simpl. apply (imap_at_eq _ _ _ cur (fun x => mkRow (id x)
          (clamp (indent cur + d) 0 (prevIndentOf (data st) (Z.to_nat r) + 1)) (cells x)));
          [lia | exact Hk]. }
    split; [exact Hdata|]. intros Hok.
    pose proof (proj1 (indent_ok_spec _) Hok) as Hall.
    pose proof (lookup_lt_Some _ _ _ Hk) as Hkl.
    assert (Hc : data st !!! Z.to_nat r = cur) by (apply list_lookup_total_correct; exact Hk).
    destruct (Hall (Z.to_nat r) Hkl) as [Hc0 Hc1]. rewrite Hc in Hc0, Hc1.
    assert (Hp : 0 <= prevIndentOf (data st) (Z.to_nat r)).
    { unfold prevIndentOf. destruct (Z.to_nat r) as [|j] eqn:Ej; [lia|].
      apply (Hall j). lia. }
    unfold clamp. split; [lia|]. intros Hnext. rewrite Hdata.
    apply indent_ok_insert; [exact Hok | exact Hk | unfold clamp; lia |].
    destruct Hnext as [Hd|Hnext]; [|exact Hnext].
    intros nx Hnx.
    assert (Hlt : (S (Z.to_nat r) < length (data st))%nat) by (eapply lookup_lt_Some; exact Hnx).
    destruct (Hall (S (Z.to_nat r)) Hlt) as [_ Hn1]. simpl in Hn1.
    rewrite Hc in Hn1. rewrite (list_lookup_total_correct _ _ _ Hnx) in Hn1. unfold clamp. lia.
Qed.

(** Alt+Right on the middle row of the sample chain: already at the
    maximal indent, nothing changes. *)
Lemma indentRow_clamps_adjusted_row_witness :
  data (indentRow 1 1 chain3) = data chain3 /\ indent_ok (data (indentRow 1 1 chain3)) = true.
Proof.
  destruct (indentRow_clamps_adjusted_row chain3 1 1) as [_ H].
  destruct (H (mkRow "q" 1 1%nat) eq_refl) as [Hd Hok].
  destruct (Hok eq_refl) as [_ Hi].
  split; [rewrite Hd; reflexivity|]. apply Hi. left. lia.
Defined.

(** C5 (counterexample): on the chain of indents 0, 1, 2, outdenting the
    middle row (Alt+Left) gives 0, 0, 2: its child is not moved and
    now sits two levels below the row before it. *)
Lemma indentRow_outdent_breaks_child :
  indent_ok (data chain3) = true /\
  map indent (data (indentRow 1 (-1) chain3)) = [0; 0; 2] /\
  indent_ok (data (indentRow 1 (-1) chain3)) = false.
Proof. split; [reflexivity|split; reflexivity]. Qed.

End IndentTheorems.

(* ================================================================== *)
(** * Ownership of the row collection                                  *)
(* ================================================================== *)

Module OwnershipTheorems.
Import Grid Ops Samples.

(** C6 (failing input): on the one-row sample table, whose row's [cells]
    object holds [a = "x"], pasting "y" into the selected cell (0, 0)
    hands the host a collection [data.slice()] whose row is the host's own
    row object, and writes "y" into that row's [cells] object in place:
    the collection the host held before the paste now reads [a = "y"].
    A cell commit of the same value on the same table leaves it reading
    [a = "x"], since it copies the row and its [cells] object. *)
Lemma onPaste_mutates_host_collection :
  let before := data one_cell in
  let pasted := onPaste sample_Number "dd.mm.yyyy" one_cell_clipboard "y" one_cell in
  denote (heap one_cell) before = [("r", 0, Some {[ "a" := CStr "x" ]})] /\
  host_rows pasted = [before] /\
  denote (heap pasted) before = [("r", 0, Some {[ "a" := CStr "y" ]})] /\
  match commitCellValue sample_Number "dd.mm.yyyy" 0 0 "y" true one_cell with
  | Done committed =>
      denote (heap committed) before = [("r", 0, Some {[ "a" := CStr "x" ]})] /\
      denote (heap committed) (data committed) = [("r", 0, Some {[ "a" := CStr "y" ]})]
  | Throws _ => False
  end.
Proof. vm_compute. repeat split. Qed.

End OwnershipTheorems.

(* ================================================================== *)
(** * Keyboard navigation                                               *)
(* ================================================================== *)

Module NavigationTheorems.
Import Grid Ops Samples.

(** The visible rows are listed in increasing order, each at least the
    index the walk started from. *)
Lemma vis_loop_sorted (rows : list RowData) hc coll fuel :
  forall i st,
    StronglySorted lt (vis_loop rows hc coll fuel i st) /\
    Forall (fun v => (i <= v)%nat) (vis_loop rows hc coll fuel i st).
Proof.
  induction fuel as [|fuel IH]; intros i st; simpl; [split; constructor|].
  destruct (IH (S i) (mkVis (id (rows !!! i)) (indent (rows !!! i))
              (if bool_decide (i ∈ hc) then bool_decide (id (rows !!! i) ∈ coll) else false)
              :: pop_while ve_indent (indent (rows !!! i)) st)) as [Hs Hf].
  destruct (existsb ve_collapsed (pop_while ve_indent (indent (rows !!! i)) st)); simpl.
  - split; [exact Hs|]. rewrite Forall_forall in *. intros x Hx. specialize (Hf x Hx). lia.
  - split.
    + constructor; [exact Hs|]. rewrite Forall_forall in *. intros x Hx. specialize (Hf x Hx). lia.
    + constructor; [lia|]. rewrite Forall_forall in *. intros x Hx. specialize (Hf x Hx). lia.
Qed.

Lemma visibleRowIndices_sorted rows hc coll :
  StronglySorted lt (visibleRowIndices rows hc coll).
Proof. apply vis_loop_sorted. Qed.

Lemma indexOf_None (l : list nat) (x : Z) :
  (forall v, In v l -> Z.of_nat v <> x) -> indexOf l x = None.
Proof.
  induction l as [|a l IH]; intros H; simpl; [reflexivity|].
  destruct (Z.eqb_spec (Z.of_nat a) x) as [E|E].
  - exfalso. apply (H a); [left; reflexivity | exact E].
  - rewrite IH; [reflexivity|]. intros v Hv. apply H. right. exact Hv.
Qed.

(** In an increasing list, [find] returns the least element passing the test. *)
Lemma find_least (p : nat -> bool) (l : list nat) (v : nat) :
  StronglySorted lt l -> In v l -> p v = true ->
  (forall w, In w l -> p w = true -> (v <= w)%nat) ->
  find p l = Some v.
Proof.
  induction l as [|a l IH]; intros Hs Hin Hp Hmin; [destruct Hin|].
  inversion Hs as [|? ? Hs' Hall]; subst. simpl.
  destruct (p a) eqn:Pa.
  - destruct Hin as [->|Hin]; [reflexivity|].
    pose proof (Hmin a (or_introl eq_refl) Pa).
    rewrite List.Forall_forall in Hall. specialize (Hall v Hin). lia.
  - destruct Hin as [->|Hin]; [congruence|].
    apply IH; auto. intros w Hw Pw. apply Hmin; [right|]; assumption.
Qed.

Lemma find_none_all (p : nat -> bool) (l : list nat) :
  (forall w, In w l -> p w = false) -> find p l = None.
Proof.
  induction l as [|a l IH]; intros H; simpl; [reflexivity|].
  rewrite (H a (or_introl eq_refl)). apply IH. intros w Hw. apply H. right. exact Hw.
Qed.

(** C10: when the anchor row [r] is not among the visible rows of the
    collection, [nextPosAfter] answers the same for every direction: the
    least visible row index at least [r], or the last visible row when
    there is none, or [r] itself when no row is visible; the column is
    never changed. *)
Theorem nextPosAfter_hidden_anchor (rows : list RowData) (coll : gset string)
  (ncols : nat) (r c : Z) (dir : Dir) :
  let visible := visibleRowIndices rows (computeHasChildren rows) coll in
  (forall v, In v visible -> Z.of_nat v <> r) ->
  (forall v, In v visible -> r <= Z.of_nat v ->
     (forall w, In w visible -> r <= Z.of_nat w -> (v <= w)%nat) ->
     nextPosAfter visible ncols r c dir = (Z.of_nat v, c)) /\
  ((forall w, In w visible -> Z.of_nat w < r) ->
     forall v, last visible = Some v -> nextPosAfter visible ncols r c dir = (Z.of_nat v, c)) /\
  (visible = [] -> nextPosAfter visible ncols r c dir = (r, c)).
Proof.
  intros visible Hnot.
  pose proof (visibleRowIndices_sorted rows (computeHasChildren rows) coll) as Hs.
  fold visible in Hs.
  unfold nextPosAfter. rewrite (indexOf_None visible r Hnot).
  split; [|split].
  - intros v Hv Hr Hmin.
    rewrite (find_least (fun v => r <=? Z.of_nat v) visible v Hs Hv); [reflexivity| |].
    + apply Z.leb_le. exact Hr.
    + intros w Hw Pw. apply Hmin; [exact Hw|]. apply Z.leb_le. exact Pw.
  - intros Hall v Hl.
    rewrite find_none_all.
    + rewrite last_lookup in Hl. replace (length visible - 1)%nat with (pred (length visible)) by lia.
      rewrite Hl. reflexivity.
    + intros w Hw. apply Z.leb_gt. apply Hall. exact Hw.
  - intros E. rewrite E. reflexivity.
Qed.

(** A sample: rows p (indent 0), q (1), s (0) with p collapsed; the
    anchor q is hidden and every direction moves it to row 2. *)
Lemma nextPosAfter_hidden_anchor_witness :
  nextPosAfter (visibleRowIndices [mkRow "p" 0 0%nat; mkRow "q" 1 1%nat; mkRow "s" 0 2%nat]
                  (computeHasChildren [mkRow "p" 0 0%nat; mkRow "q" 1 1%nat; mkRow "s" 0 2%nat])
                  {[ "p" ]})
    3 1 2 Right = (2, 2).
Proof.
  destruct (nextPosAfter_hidden_anchor [mkRow "p" 0 0%nat; mkRow "q" 1 1%nat; mkRow "s" 0 2%nat]
              {[ "p" ]} 3 1 2 Right) as [H _].
  - vm_compute. intros v [<-|[<-|[]]]; discriminate.
  - apply (H 2%nat); [vm_compute; auto | lia |].
    intros w Hw Hr. vm_compute in Hw. destruct Hw as [<-|[<-|[]]]; simpl in Hr; lia.
Defined.

End NavigationTheorems.

(* ================================================================== *)
(** * Pasting a block                                                  *)
(* ================================================================== *)

Module PasteTheorems.
Import Grid Ops Samples IndentTheorems NavigationTheorems.

Section Heap.
Context {num : Type}.
Implicit Types (h : Heap num) (row : RowData) (v : CellValue num).

Lemma read_write_same h row k v : read_cell (write_cell h row k v) row k = v.
Proof. unfold read_cell, write_cell. rewrite !lookup_insert_eq. reflexivity. Qed.

Lemma read_write_other h row k k' v :
  k <> k' -> read_cell (write_cell h row k v) row k' = read_cell h row k'.
Proof.
  intros Hk. unfold read_cell, write_cell. rewrite lookup_insert_eq.
  rewrite lookup_insert_ne by exact Hk.
  destruct (h !! cells row); simpl; [reflexivity|]. rewrite lookup_empty. reflexivity.
Qed.

Lemma write_other_loc h row k v l :
  l <> cells row -> write_cell h row k v !! l = h !! l.
Proof. intros Hl. unfold write_cell. apply lookup_insert_ne. congruence. Qed.

Lemma write_same_loc h h' row k v :
  h !! cells row = h' !! cells row ->
  write_cell h row k v !! cells row = write_cell h' row k v !! cells row.
Proof. intros E. unfold write_cell. rewrite !lookup_insert_eq, E. reflexivity. Qed.

Lemma read_cell_loc h h' row k :
  h !! cells row = h' !! cells row -> read_cell h row k = read_cell h' row k.
Proof. intros E. unfold read_cell. rewrite E. reflexivity. Qed.

End Heap.

Section Paste.
Context {num : Type}.
Variable Number : string -> num.
Variable dateFormat : string.
Variable parseClipboard : string -> list (list string).

Local Abbreviation coerce := (coerce Number dateFormat).
Local Abbreviation paste_line := (paste_line Number dateFormat).
Local Abbreviation paste_rows := (paste_rows Number dateFormat).

Lemma paste_line_other_loc row vr c1 cs line j (h : Heap num) l :
  l <> cells row -> paste_line row vr c1 cs line j h !! l = h !! l.
Proof.
  intros Hl. revert j h.
  induction line as [|raw line IH]; intros j h; simpl; [reflexivity|].
  destruct (_ <=? _); [reflexivity|].
  rewrite IH. unfold isAggregatedCell. apply write_other_loc. exact Hl.
Qed.

Lemma paste_line_same_loc row vr c1 cs line j (h h' : Heap num) :
  h !! cells row = h' !! cells row ->
  paste_line row vr c1 cs line j h !! cells row = paste_line row vr c1 cs line j h' !! cells row.
Proof.
  revert j h h'.
  induction line as [|raw line IH]; intros j h h' E; simpl; [exact E|].
  destruct (_ <=? _); [exact E|].
  apply IH. unfold isAggregatedCell. apply write_same_loc. exact E.
Qed.

Lemma paste_line_keeps row vr c1 cs line j (h : Heap num) kk :
  (forall j' raw, line !! j' = Some raw -> c1 + Z.of_nat (j + j') < Z.of_nat (length cs) ->
     key (cs !!! Z.to_nat (c1 + Z.of_nat (j + j'))) <> kk) ->
  read_cell (paste_line row vr c1 cs line j h) row kk = read_cell h row kk.
Proof.
  revert j h.
  induction line as [|raw line IH]; intros j h Hk; simpl; [reflexivity|].
  destruct (Z.leb_spec (Z.of_nat (length cs)) (c1 + Z.of_nat j)); [reflexivity|].
  rewrite IH.
  - unfold isAggregatedCell. apply read_write_other.
    specialize (Hk 0%nat raw eq_refl). rewrite Nat.add_0_r in Hk. apply Hk. lia.
  - intros j' raw' Hj' Hlt. specialize (Hk (S j') raw' Hj').
    replace (j + S j')%nat with (S j + j')%nat in Hk by lia. apply Hk. lia.
Qed.

Lemma NoDup_keys_ne (cs : list ColumnDef) a b :
  NoDup (key <$> cs) -> (a < length cs)%nat -> (b < length cs)%nat -> a <> b ->
  key (cs !!! a) <> key (cs !!! b).
Proof.
  intros Hnd Ha Hb Hab E. apply Hab.
  apply (NoDup_lookup (key <$> cs) a b (key (cs !!! a)) Hnd).
  - rewrite list_lookup_fmap, (list_lookup_lookup_total_lt cs a Ha). reflexivity.
  - rewrite list_lookup_fmap, (list_lookup_lookup_total_lt cs b Hb), E. reflexivity.
Qed.

Lemma paste_line_writes row vr c1 cs line j j' raw (h : Heap num) :
  NoDup (key <$> cs) -> 0 <= c1 ->
  line !! j' = Some raw -> c1 + Z.of_nat (j + j') < Z.of_nat (length cs) ->
  read_cell (paste_line row vr c1 cs line j h) row (key (cs !!! Z.to_nat (c1 + Z.of_nat (j + j'))))
  = coerce (cs !!! Z.to_nat (c1 + Z.of_nat (j + j'))) raw.
Proof.
  intros Hnd Hc1. revert j j' h.
  induction line as [|raw0 line IH]; intros j j' h Hj Hlt; [discriminate Hj|]. simpl.
  destruct (Z.leb_spec (Z.of_nat (length cs)) (c1 + Z.of_nat j)); [lia|].
  unfold isAggregatedCell. simpl.
  destruct j' as [|j''].
  - simpl in Hj. injection Hj as <-. rewrite Nat.add_0_r.
    rewrite paste_line_keeps; [apply read_write_same|].
    intros j' raw' _ Hlt'. apply NoDup_keys_ne; [exact Hnd | lia | lia | lia].
  - simpl in Hj. replace (j + S j'')%nat with (S j + j'')%nat by lia.
    apply IH; [exact Hj | lia].
Qed.

Section Rows.
Variables (visible : list nat) (start : nat) (c1 : Z) (cs : list ColumnDef) (next : list RowData).
Hypothesis Hvis_nd : NoDup visible.
Hypothesis Hvis_lt : forall v, In v visible -> (v < length next)%nat.
Hypothesis Hcells : NoDup (cells <$> next).

Lemma cells_ne a b :
  (a < length next)%nat -> (b < length next)%nat -> a <> b ->
  cells (next !!! a) <> cells (next !!! b).
Proof.
  intros Ha Hb Hab E. apply Hab.
  apply (NoDup_lookup (cells <$> next) a b (cells (next !!! a)) Hcells).
  - rewrite list_lookup_fmap, (list_lookup_lookup_total_lt next a Ha). reflexivity.
  - rewrite list_lookup_fmap, (list_lookup_lookup_total_lt next b Hb), E. reflexivity.
Qed.

Lemma visible_in i v : visible !! i = Some v -> (v < length next)%nat.
Proof. intros H. apply Hvis_lt. apply list_elem_of_In. eapply list_elem_of_lookup_2. exact H. Qed.

Lemma paste_rows_other_loc (m : list (list string)) :
  forall i (h : Heap num) l,
  (forall i' vr, (i <= i')%nat -> (i' < i + length m)%nat ->
     visible !! (start + i')%nat = Some vr -> cells (next !!! vr) <> l) ->
  paste_rows visible start c1 cs next m i h !! l = h !! l.
Proof.
  induction m as [|line m IH]; intros i h l H; simpl; [reflexivity|].
  destruct (visible !! (start + i)%nat) as [vr|] eqn:E; [|reflexivity].
  rewrite IH.
  - apply paste_line_other_loc. intros Hl. apply (H i vr); [lia | simpl; lia | exact E | congruence].
  - intros i' vr' Hi Hlt E'. apply (H i' vr'); [lia | simpl; lia | exact E'].
Qed.

Lemma paste_rows_row (m : list (list string)) :
  forall i (h : Heap num) i' line vr,
  (i <= i')%nat -> m !! (i' - i)%nat = Some line -> visible !! (start + i')%nat = Some vr ->
  paste_rows visible start c1 cs next m i h !! cells (next !!! vr)
  = paste_line (next !!! vr) vr c1 cs line 0 h !! cells (next !!! vr).
Proof.
  induction m as [|line0 m IH]; intros i h i' line vr Hi Hm Hv; [destruct (i' - i)%nat; discriminate|].
  simpl.
  destruct (visible !! (start + i)%nat) as [vr0|] eqn:E.
  2:{ exfalso. apply lookup_lt_Some in Hv. apply lookup_ge_None in E. lia. }
  destruct (decide (i' = i)) as [->|Hne].
  - rewrite Nat.sub_diag in Hm. simpl in Hm. injection Hm as <-.
    rewrite E in Hv. injection Hv as <-.
    apply paste_rows_other_loc. intros i'' vr'' Hi'' _ E''.
    apply cells_ne; [eapply visible_in; exact E'' | eapply visible_in; exact E |].
    intros ->. pose proof (NoDup_lookup visible _ _ _ Hvis_nd E'' E). lia.
  - replace (i' - i)%nat with (S (i' - S i)) in Hm by lia. simpl in Hm.
    rewrite (IH (S i) _ i' line vr ltac:(lia) Hm Hv).
    apply paste_line_same_loc. apply paste_line_other_loc.
    apply cells_ne; [eapply visible_in; exact Hv | eapply visible_in; exact E |].
    intros ->. pose proof (NoDup_lookup visible _ _ _ Hvis_nd Hv E). lia.
Qed.

End Rows.

Lemma vis_loop_bound (rows : list RowData) hc coll fuel :
  forall i st, Forall (fun v => (v < i + fuel)%nat) (vis_loop rows hc coll fuel i st).
Proof.
  induction fuel as [|fuel IH]; intros i st; simpl; [constructor|].
  apply Forall_app. split.
  - destruct (existsb _ _); constructor; [lia | constructor].
  - specialize (IH (S i) (mkVis (id (rows !!! i)) (indent (rows !!! i))
              (if bool_decide (i ∈ hc) then bool_decide (id (rows !!! i) ∈ coll) else false)
              :: pop_while ve_indent (indent (rows !!! i)) st)).
    rewrite List.Forall_forall in *. intros x Hx. specialize (IH x Hx). lia.
Qed.

Lemma sorted_NoDup (l : list nat) : StronglySorted lt l -> NoDup l.
Proof.
  induction 1 as [|a l Hs IH Hall]; constructor; [|exact IH].
  intros Hin. apply list_elem_of_In in Hin. rewrite List.Forall_forall in Hall. specialize (Hall a Hin). lia.
Qed.

(** C8: pasting a non-empty text with a selection whose first row is
    visible writes clipboard row [i] into the visible row at position
    [i] after the selection's first row, cell [j] into column
    [c1 + j], as [coerce] reads it; clipboard cells past the last column
    are dropped, rows that receive no clipboard row (among them every
    hidden row) and the other cells of the receiving rows keep their
    values, and no row or column is added.  Pasting an empty text
    changes nothing.  Rows are taken to own their [cells] objects and
    column keys to be distinct. *)
Theorem onPaste_places_block (st : Core num) (txt : string) (start : nat) :
  onPaste Number dateFormat parseClipboard "" st = st /\
  let visible := visibleRowIndices (data st) (computeHasChildren (data st)) (collapsed st) in
  let m := parseClipboard txt in
  let st' := onPaste Number dateFormat parseClipboard txt st in
  hasSel (sel st) = true -> txt <> "" ->
  indexOf visible (r1 (sel st)) = Some start ->
  NoDup (cells <$> data st) -> NoDup (key <$> cols st) ->
  data st' = data st /\ cols st' = cols st /\ host_rows st' = host_rows st ++ [data st] /\
  (forall i line vr j raw col,
     m !! i = Some line -> visible !! (start + i)%nat = Some vr ->
     line !! j = Some raw -> nth_z (cols st) (c1 (sel st) + Z.of_nat j) = Some col ->
     read_cell (heap st') (data st !!! vr) (key col) = coerce col raw) /\
  (forall i line vr kk,
     m !! i = Some line -> visible !! (start + i)%nat = Some vr ->
     (forall j col, (j < length line)%nat ->
        nth_z (cols st) (c1 (sel st) + Z.of_nat j) = Some col -> key col <> kk) ->
     read_cell (heap st') (data st !!! vr) kk = read_cell (heap st) (data st !!! vr) kk) /\
  (forall k, (k < length (data st))%nat ->
     (forall i, (i < length m)%nat -> visible !! (start + i)%nat <> Some k) ->
     heap st' !! cells (data st !!! k) = heap st !! cells (data st !!! k)).
Proof.
  split.
  { unfold onPaste. destruct (negb (hasSel (sel st))); reflexivity. }
  intros visible m st' Hsel Htxt Hidx Hnd Hkeys.
  assert (Hvs : StronglySorted lt visible) by apply visibleRowIndices_sorted.
  assert (Hvnd : NoDup visible) by (apply sorted_NoDup; exact Hvs).
  assert (Hvlt : forall v, In v visible -> (v < length (data st))%nat).
  { intros v Hv. pose proof (vis_loop_bound (data st) (computeHasChildren (data st))
      (collapsed st) (length (data st)) 0 [] ) as Hb.
    rewrite List.Forall_forall in Hb. exact (Hb v Hv). }
  assert (Hc1 : 0 <= c1 (sel st)).
  { unfold hasSel in Hsel. repeat (apply andb_prop in Hsel as [Hsel ?]). lia. }
  assert (Heap' : heap st' = paste_rows visible start (c1 (sel st)) (cols st) (data st) m 0 (heap st)
                  /\ data st' = data st /\ cols st' = cols st /\ host_rows st' = host_rows st ++ [data st]).
  { subst st'. unfold onPaste. rewrite Hsel. simpl.
    destruct (String.eqb_spec txt ""); [contradiction|].
    fold visible. rewrite Hidx. repeat split. }
  destruct Heap' as (Hh & Hd & Hc & Hhr).
  repeat split; [exact Hd | exact Hc | exact Hhr | | |].
  - intros i line vr j raw col Hm Hv Hj Hcol.
    rewrite Hh. rewrite (read_cell_loc _ (paste_line (data st !!! vr) vr (c1 (sel st)) (cols st) line 0 (heap st)))
      by (apply (paste_rows_row visible start _ _ _ Hvnd Hvlt Hnd m 0 (heap st) i line vr);
          [lia | rewrite Nat.sub_0_r; exact Hm | exact Hv]).
    apply nth_z_Some in Hcol as [_ Hcol].
    pose proof (lookup_lt_Some _ _ _ Hcol) as Hlt.
    rewrite (list_lookup_total_correct _ _ _ Hcol) at 1 2 || idtac.
    pose proof (paste_line_writes (data st !!! vr) vr (c1 (sel st)) (cols st) line 0 j raw (heap st)
                  Hkeys Hc1 Hj ltac:(simpl; lia)) as W.
    simpl in W. rewrite (list_lookup_total_correct _ _ _ Hcol) in W. exact W.
  - intros i line vr kk Hm Hv Hk.
    rewrite Hh. rewrite (read_cell_loc _ (paste_line (data st !!! vr) vr (c1 (sel st)) (cols st) line 0 (heap st)))
      by (apply (paste_rows_row visible start _ _ _ Hvnd Hvlt Hnd m 0 (heap st) i line vr);
          [lia | rewrite Nat.sub_0_r; exact Hm | exact Hv]).
    apply paste_line_keeps. intros j' raw' Hj' Hlt. simpl in Hlt |- *.
    apply (Hk j'); [eapply lookup_lt_Some; exact Hj'|].
    unfold nth_z. destruct (Z.ltb_spec (c1 (sel st) + Z.of_nat j') 0); [lia|].
    apply list_lookup_lookup_total_lt. lia.
  - intros k Hk Hnot. rewrite Hh.
    apply (paste_rows_other_loc visible start _ _ _).
    intros i' vr _ Hi' Hv.
    apply (cells_ne (data st) Hnd); [apply Hvlt; apply list_elem_of_In; eapply list_elem_of_lookup_2; exact Hv
                    | exact Hk |].
    intros ->. apply (Hnot i'); [simpl in Hi'; lia | exact Hv].
Qed.

End Paste.

(** Pasting two lines of two cells at (0, 1) of [paste_table]: the
    first line goes to row p, the second skips the hidden row q and goes
    to row s; the second cell of each line, past the last column, is
    dropped; p's other cell and q's cells are kept. *)
Lemma onPaste_places_block_witness :
  read_cell (heap (onPaste sample_Number "dd.mm.yyyy" tsv_clipboard tsv_2x2 paste_table))
    (mkRow "p" 0 0%nat) "b" = CStr "1" /\
  read_cell (heap (onPaste sample_Number "dd.mm.yyyy" tsv_clipboard tsv_2x2 paste_table))
    (mkRow "s" 0 2%nat) "b" = CStr "3" /\
  read_cell (heap (onPaste sample_Number "dd.mm.yyyy" tsv_clipboard tsv_2x2 paste_table))
    (mkRow "p" 0 0%nat) "a" = CStr "x" /\
  heap (onPaste sample_Number "dd.mm.yyyy" tsv_clipboard tsv_2x2 paste_table) !! 1%nat =
    heap paste_table !! 1%nat.
Proof.
  destruct (onPaste_places_block sample_Number "dd.mm.yyyy" tsv_clipboard paste_table tsv_2x2 0%nat)
    as [_ H].
  destruct (H eq_refl ltac:(discriminate) ltac:(vm_compute; reflexivity)
              ltac:(apply (bool_decide_unpack _); vm_compute; reflexivity)
              ltac:(apply (bool_decide_unpack _); vm_compute; reflexivity))
    as (_ & _ & _ & Hw & Hk & Ho).
  split; [|split; [|split]].
  - exact (Hw 0%nat ["1"; "2"]%string 0%nat 0%nat "1"%string colB
             ltac:(vm_compute; reflexivity) ltac:(vm_compute; reflexivity) eq_refl eq_refl).
  - exact (Hw 1%nat ["3"; "4"]%string 2%nat 0%nat "3"%string colB
             ltac:(vm_compute; reflexivity) ltac:(vm_compute; reflexivity) eq_refl eq_refl).
  - apply (Hk 0%nat ["1"; "2"]%string 0%nat "a"%string
             ltac:(vm_compute; reflexivity) ltac:(vm_compute; reflexivity)).
    intros j col Hj Hc. simpl in Hj.
    destruct j as [|[|j]]; [| |lia]; vm_compute in Hc; [|discriminate Hc].
    injection Hc as <-. discriminate.
  - apply (Ho 1%nat ltac:(vm_compute; lia)).
    intros i Hi. vm_compute in Hi. destruct i as [|[|i]]; [| |lia]; vm_compute; discriminate.
Defined.

End PasteTheorems.

(* ================================================================== *)
(** * Collapsing rows                                                   *)
(* ================================================================== *)

Module OutlineTheorems.
Import Grid Ops Outline.

Lemma filter_all {A} (g : A -> bool) l : (forall x, In x l -> g x = true) -> List.filter g l = l.
Proof.
  induction l as [|a l IH]; intros H; simpl; [reflexivity|].
  rewrite (H a (or_introl eq_refl)), IH; [reflexivity|]. intros x Hx. apply H. right. exact Hx.
Qed.

Lemma filter_filter' {A} (f g : A -> bool) l :
  List.filter f (List.filter g l) = List.filter (fun x => g x && f x) l.
Proof.
  induction l as [|a l IH]; simpl; [reflexivity|].
  destruct (g a); simpl; [destruct (f a)|]; simpl; rewrite ?IH; reflexivity.
Qed.

Lemma filter_map' {A B} (f : B -> bool) (e : A -> B) l :
  List.filter f (map e l) = map e (List.filter (fun x => f (e x)) l).
Proof.
  induction l as [|a l IH]; simpl; [reflexivity|]. destruct (f (e a)); simpl; rewrite IH; reflexivity.
Qed.

(** On a stack whose indents decrease from the top, [pop_while] removes
    exactly the entries indented at least [x]. *)
Lemma pop_while_filter {A} (f : A -> Z) x l :
  StronglySorted (fun a b => f b < f a) l -> pop_while f x l = List.filter (fun a => f a <? x) l.
Proof.
  induction 1 as [|a l Hs IH Hall]; simpl; [reflexivity|].
  destruct (Z.leb_spec x (f a)).
  - destruct (Z.ltb_spec (f a) x); [lia|]. exact IH.
  - destruct (Z.ltb_spec (f a) x); [|lia]. f_equal. symmetry. apply filter_all.
    intros y Hy. rewrite List.Forall_forall in Hall. specialize (Hall y Hy). apply Z.ltb_lt. lia.
Qed.

Section Rows.
Variable rows : list RowData.
Local Abbreviation ind a := (indent (rows !!! a)).

Lemma is_anc_open a i : is_anc rows a i = is_open rows a i && (ind a <? ind i).
Proof.
  unfold is_anc, is_open. destruct (Nat.ltb_spec a i) as [H|H]; simpl; [|reflexivity].
  replace (i - a)%nat with (S (i - S a)) by lia. rewrite seq_S, forallb_app. simpl.
  replace (S (a + (i - S a)))%nat with i by lia.
  destruct (forallb _ _); simpl; [|reflexivity]. destruct (ind a <? ind i); reflexivity.
Qed.

Lemma is_open_S a i : (a < i)%nat -> is_open rows a (S i) = is_anc rows a i.
Proof.
  intros H. unfold is_anc, is_open.
  destruct (Nat.ltb_spec a (S i)); [|lia]. destruct (Nat.ltb_spec a i); [|lia].
  replace (S i - S a)%nat with (i - a)%nat by lia. reflexivity.
Qed.

Lemma is_open_self i : is_open rows i (S i) = true.
Proof. unfold is_open. destruct (Nat.ltb_spec i (S i)); [|lia]. rewrite Nat.sub_diag. reflexivity. Qed.

Lemma rev_seq_S i : rev (seq 0 (S i)) = i :: rev (seq 0 i).
Proof. rewrite seq_S, rev_app_distr. reflexivity. Qed.

Lemma open_list_S i :
  open_list rows (S i) = i :: List.filter (fun a => is_anc rows a i) (rev (seq 0 i)).
Proof.
  unfold open_list. rewrite rev_seq_S. simpl. rewrite is_open_self. f_equal.
  apply filter_ext_in. intros a Ha. apply in_rev, in_seq in Ha. apply is_open_S. lia.
Qed.

Lemma rev_seq_sorted i : StronglySorted (fun a b => (b < a)%nat) (rev (seq 0 i)).
Proof.
  induction i as [|i IH]; [constructor|]. rewrite rev_seq_S. constructor; [exact IH|].
  apply List.Forall_forall. intros x Hx. apply in_rev, in_seq in Hx. lia.
Qed.

Lemma sorted_filter {A} (R : A -> A -> Prop) (g : A -> bool) l :
  StronglySorted R l -> StronglySorted R (List.filter g l).
Proof.
  induction 1 as [|a l Hs IH Hall]; simpl; [constructor|].
  destruct (g a); [|exact IH]. constructor; [exact IH|].
  rewrite List.Forall_forall in *. intros x Hx. apply filter_In in Hx. apply Hall, Hx.
Qed.

Lemma open_sorted {A} (f : A -> Z) (e : nat -> A) (He : forall a, f (e a) = ind a) i L :
  StronglySorted (fun a b => (b < a)%nat) L -> (forall a, In a L -> is_open rows a i = true) ->
  StronglySorted (fun x y => f y < f x) (map e L).
Proof.
  induction 1 as [|a L Hs IH Hall]; intros Ho; simpl; [constructor|].
  constructor; [apply IH; intros b Hb; apply Ho; right; exact Hb|].
  apply List.Forall_forall. intros y Hy. apply in_map_iff in Hy as [b [<- Hb]].
  rewrite !He. rewrite List.Forall_forall in Hall. specialize (Hall b Hb).
  pose proof (Ho a (or_introl eq_refl)) as Ha. pose proof (Ho b (or_intror Hb)) as Hbo.
  unfold is_open in Ha, Hbo. apply andb_prop in Ha as [Ha _]. apply andb_prop in Hbo as [_ Hbo].
  apply Nat.ltb_lt in Ha. rewrite forallb_forall in Hbo.
  specialize (Hbo a ltac:(apply in_seq; lia)). apply Z.ltb_lt in Hbo. exact Hbo.
Qed.

Lemma pop_open {A} (f : A -> Z) (e : nat -> A) (He : forall a, f (e a) = ind a) i :
  pop_while f (ind i) (map e (open_list rows i))
  = map e (List.filter (fun a => is_anc rows a i) (rev (seq 0 i))).
Proof.
  rewrite pop_while_filter.
  - unfold open_list. rewrite filter_map'. f_equal. rewrite filter_filter'.
    apply filter_ext. intros a. rewrite He, is_anc_open. reflexivity.
  - apply (open_sorted f e He i).
    + unfold open_list. apply sorted_filter, rev_seq_sorted.
    + intros a Ha. unfold open_list in Ha. apply filter_In in Ha. apply Ha.
Qed.

Section Visible.
Variables (hc : gset nat) (coll : gset string).

Lemma hidden_after_pop i :
  existsb ve_collapsed (map (vis_entry rows hc coll) (List.filter (fun a => is_anc rows a i) (rev (seq 0 i))))
  = hidden_b rows hc coll i.
Proof.
  unfold hidden_b. apply Bool.eq_iff_eq_true. rewrite !existsb_exists. split.
  - intros [x [Hx Hc]]. apply in_map_iff in Hx as [a [<- Ha]].
    apply filter_In in Ha as [Ha Hanc]. apply in_rev in Ha.
    exists a. split; [exact Ha|]. rewrite Hanc, Hc. reflexivity.
  - intros [a [Ha Hc]]. apply andb_prop in Hc as [Hanc Hc].
    exists (vis_entry rows hc coll a). split; [|exact Hc].
    apply in_map. apply filter_In. split; [apply (proj1 (in_rev _ _)); exact Ha | exact Hanc].
Qed.

Lemma vis_loop_filter fuel :
  forall i, vis_loop rows hc coll fuel i (map (vis_entry rows hc coll) (open_list rows i))
  = List.filter (fun j => negb (hidden_b rows hc coll j)) (seq i fuel).
Proof.
  induction fuel as [|fuel IH]; intros i; [reflexivity|].
  simpl vis_loop. cbv zeta.
  rewrite (pop_open ve_indent (vis_entry rows hc coll) (fun a => eq_refl) i).
  rewrite hidden_after_pop.
  change (mkVis (id (rows !!! i)) (indent (rows !!! i))
            (if bool_decide (i ∈ hc) then bool_decide (id (rows !!! i) ∈ coll) else false)
          :: map (vis_entry rows hc coll) (List.filter (fun a => is_anc rows a i) (rev (seq 0 i))))
    with (map (vis_entry rows hc coll) (i :: List.filter (fun a => is_anc rows a i) (rev (seq 0 i)))).
  rewrite <- open_list_S, IH. simpl.
  destruct (hidden_b rows hc coll i); reflexivity.
Qed.

Lemma visibleRowIndices_filter :
  visibleRowIndices rows hc coll
  = List.filter (fun j => negb (hidden_b rows hc coll j)) (seq 0 (length rows)).
Proof. apply (vis_loop_filter (length rows) 0). Qed.

End Visible.

Lemma chc_loop_keys fuel :
  forall i cm,
  (forall a, (S a < i)%nat -> ind a < ind (S a) -> a ∈ dom cm) ->
  forall a, (S a < i + fuel)%nat -> ind a < ind (S a) ->
  a ∈ dom (chc_loop rows fuel i (map (fun a => (a, ind a)) (open_list rows i)) cm).
Proof.
  induction fuel as [|fuel IH]; intros i cm Hinv a Ha Hlt.
  { simpl. apply Hinv; [lia | exact Hlt]. }
  simpl chc_loop. cbv zeta.
  rewrite (pop_open snd (fun a => (a, ind a)) (fun a => eq_refl) i).
  change ((i, ind i) :: map (fun a => (a, ind a)) (List.filter (fun a => is_anc rows a i) (rev (seq 0 i))))
    with (map (fun a => (a, ind a)) (i :: List.filter (fun a => is_anc rows a i) (rev (seq 0 i)))).
  rewrite <- open_list_S.
  apply IH; [|lia|exact Hlt].
  intros b Hb Hblt.
  destruct (decide (S b = i)) as [<-|Hne].
  - rewrite rev_seq_S. simpl.
    rewrite is_anc_open, is_open_self. simpl. destruct (Z.ltb_spec (ind b) (ind (S b))); [|lia].
    simpl. rewrite dom_insert_L. set_solver.
  - assert (Hin : b ∈ dom cm) by (apply Hinv; [lia | exact Hblt]).
    destruct (map _ _) as [|[p q] l]; [exact Hin|].
    rewrite dom_insert_L. set_solver.
Qed.

Lemma computeHasChildren_anc a j :
  is_anc rows a j = true -> (j < length rows)%nat -> a ∈ computeHasChildren rows.
Proof.
  intros H Hj. unfold is_anc in H. apply andb_prop in H as [Haj H].
  apply Nat.ltb_lt in Haj. rewrite forallb_forall in H.
  specialize (H (S a) ltac:(apply in_seq; lia)). apply Z.ltb_lt in H.
  unfold computeHasChildren.
  apply (chc_loop_keys (length rows) 0 ∅); [intros; lia | lia | exact H].
Qed.

End Rows.

Lemma hidden_hc (rows : list RowData) (C : gset string) j :
  (j < length rows)%nat ->
  hidden_b rows (computeHasChildren rows) C j
  = existsb (fun a => is_anc rows a j && bool_decide (id (rows !!! a) ∈ C)) (seq 0 j).
Proof.
  intros Hj. unfold hidden_b. apply Bool.eq_iff_eq_true. rewrite !existsb_exists.
  split; intros [a [Ha H]]; exists a; split; try exact Ha;
    apply andb_prop in H as [Hanc H]; rewrite Hanc; simpl in *;
    unfold vis_entry in *; simpl in *;
    rewrite bool_decide_eq_true_2 in * by (eapply computeHasChildren_anc; [exact Hanc | exact Hj]);
    exact H.
Qed.

Lemma ids_inj (rows : list RowData) a b :
  NoDup (id <$> rows) -> (a < length rows)%nat -> (b < length rows)%nat ->
  id (rows !!! a) = id (rows !!! b) -> a = b.
Proof.
  intros Hnd Ha Hb E.
  apply (NoDup_lookup (id <$> rows) a b (id (rows !!! a)) Hnd).
  - rewrite list_lookup_fmap, (list_lookup_lookup_total_lt rows a Ha). reflexivity.
  - rewrite list_lookup_fmap, (list_lookup_lookup_total_lt rows b Hb), E. reflexivity.
Qed.

Lemma is_anc_lt (rows : list RowData) a j : is_anc rows a j = true -> (a < j)%nat.
Proof. unfold is_anc. intros H. apply andb_prop in H as [H _]. apply Nat.ltb_lt, H. Qed.

(** Adding the id of row [p] to the collapse set hides exactly the rows
    [p] is an ancestor of, when ids are distinct. *)
Lemma hidden_collapse (rows : list RowData) (C : gset string) p j :
  NoDup (id <$> rows) -> (p < length rows)%nat -> (j < length rows)%nat ->
  hidden_b rows (computeHasChildren rows) (C ∪ {[id (rows !!! p)]}) j = true <->
  hidden_b rows (computeHasChildren rows) C j = true \/ is_anc rows p j = true.
Proof.
  intros Hnd Hp Hj. rewrite !hidden_hc by exact Hj. rewrite !existsb_exists. split.
  - intros [a [Ha H]]. apply andb_prop in H as [Hanc H]. apply bool_decide_eq_true in H.
    apply elem_of_union in H as [H|H].
    + left. exists a. split; [exact Ha|]. rewrite Hanc. simpl. apply bool_decide_eq_true. exact H.
    + right. apply elem_of_singleton in H. apply in_seq in Ha.
      apply ids_inj in H; [subst a; exact Hanc | exact Hnd | lia | exact Hp].
  - intros [[a [Ha H]]|H].
    + exists a. split; [exact Ha|]. apply andb_prop in H as [Hanc H]. rewrite Hanc. simpl.
      apply bool_decide_eq_true. apply bool_decide_eq_true in H. set_solver.
    + exists p. split; [apply in_seq; pose proof (is_anc_lt _ _ _ H); lia|].
      rewrite H. simpl. apply bool_decide_eq_true. set_solver.
Qed.

(** C7: a row is visible exactly when it has no ancestor (a row before it
    whose following rows down to it are all indented deeper) whose id is
    in the collapse set.  With distinct row ids, toggling an expanded row
    [p] hides exactly the rows [p] is an ancestor of, its contiguous
    descendant run, and keeps the others in order; toggling it again
    gives back the same visible rows. *)
Theorem visibleRowIndices_collapse {num} (st : Core num) (p : nat) :
  let rows := data st in
  let vis (coll : gset string) := visibleRowIndices rows (computeHasChildren rows) coll in
  let x := id (rows !!! p) in
  (forall j, In j (vis (collapsed st)) <->
     (j < length rows)%nat /\ ~ (exists a, is_anc rows a j = true /\ id (rows !!! a) ∈ collapsed st)) /\
  (NoDup (id <$> rows) -> (p < length rows)%nat -> x ∉ collapsed st ->
     vis (collapsed (toggleCollapsed x st))
       = List.filter (fun j => negb (is_anc rows p j)) (vis (collapsed st)) /\
     vis (collapsed (toggleCollapsed x (toggleCollapsed x st))) = vis (collapsed st)).
Proof.
  intros rows vis x. split.
  - intros j. unfold vis. rewrite visibleRowIndices_filter, filter_In, in_seq.
    split.
    + intros [Hj Hh]. split; [lia|]. intros [a [Hanc Ha]].
      rewrite hidden_hc in Hh by lia. apply negb_true_iff in Hh.
      assert (Ht : existsb (fun a => is_anc rows a j && bool_decide (id (rows !!! a) ∈ collapsed st))
                     (seq 0 j) = true).
      { apply existsb_exists. exists a. split; [apply in_seq; pose proof (is_anc_lt _ _ _ Hanc); lia|].
        rewrite Hanc. simpl. apply bool_decide_eq_true. exact Ha. }
      congruence.
    + intros [Hj Hno]. split; [lia|]. rewrite hidden_hc by exact Hj.
      apply negb_true_iff. destruct (existsb _ _) eqn:E; [|reflexivity].
      exfalso. apply Hno. apply existsb_exists in E as [a [_ H]].
      apply andb_prop in H as [Hanc H]. exists a. split; [exact Hanc|]. exact (bool_decide_eq_true_1 _ H).
  - intros Hnd Hp Hx.
    assert (T1 : collapsed (toggleCollapsed x st) = collapsed st ∪ {[x]}).
    { unfold toggleCollapsed. simpl. rewrite bool_decide_eq_false_2 by exact Hx. reflexivity. }
    assert (T2 : collapsed (toggleCollapsed x (toggleCollapsed x st)) = collapsed st).
    { assert (E : forall s : Core num, collapsed (toggleCollapsed x s)
                    = if bool_decide (x ∈ collapsed s) then collapsed s ∖ {[x]}
                      else collapsed s ∪ {[x]}) by reflexivity.
      rewrite E, T1. rewrite bool_decide_eq_true_2 by set_solver. set_solver. }
    split; [|rewrite T2; reflexivity].
    rewrite T1. unfold vis. rewrite !visibleRowIndices_filter, filter_filter'.
    apply filter_ext_in. intros j Hj. apply in_seq in Hj.
    pose proof (hidden_collapse rows (collapsed st) p j Hnd Hp ltac:(lia)) as Hiff.
    fold x in Hiff.
    destruct (hidden_b rows (computeHasChildren rows) (collapsed st ∪ {[x]}) j),
             (hidden_b rows (computeHasChildren rows) (collapsed st) j), (is_anc rows p j);
      simpl; intuition congruence.
Qed.

Import Samples.

(** Collapsing row p of the sample hides its child q only. *)
Lemma visibleRowIndices_collapse_witness :
  visibleRowIndices (data outline3) (computeHasChildren (data outline3))
    (collapsed (toggleCollapsed "p" outline3)) = [0; 2]%nat.
Proof.
  destruct (visibleRowIndices_collapse outline3 0) as [_ H].
  destruct (H ltac:(apply (bool_decide_unpack _); vm_compute; reflexivity)
              ltac:(simpl; lia) ltac:(vm_compute; set_solver)) as [H1 _].
  exact (eq_trans H1 eq_refl).
Defined.

End OutlineTheorems.

(* ================================================================== *)
(** * Cell commits: what they copy and what they leave                 *)
(* ================================================================== *)

Module CommitEffectTheorems.
Import Js DateCodec Grid Ops IndentTheorems CommitTheorems.

Section Effect.
Context {num : Type}.
Variable Number : string -> num.
Variable NumberToString : num -> string.
Variable dateFormat : string.

Lemma commitCellValue_state (st st' : Core num) r c raw endEdit col :
  nth_z (cols st) c = Some col ->
  commitCellValue Number dateFormat r c raw endEdit st = Done st' ->
  cols st' = cols st /\ sel st' = sel st /\ collapsed st' = collapsed st /\
  host_rows st' = host_rows st ++ [data st'] /\
  commits st' = commits st ++ [mkCommit r c (key col) (cell_at st r (key col))
                                 (coerce Number dateFormat col raw)] /\
  (match nth_z (data st) r with
   | Some row =>
       data st' = imap (fun i row' => if decide (Z.of_nat i = r)
                                      then mkRow (id row') (indent row') (next_loc st) else row') (data st) /\
       heap st' = <[next_loc st := <[key col := coerce Number dateFormat col raw]>
                                   (default ∅ (heap st !! cells row))]> (heap st) /\
       next_loc st' = S (next_loc st)
   | None => data st' = data st /\ heap st' = heap st /\ next_loc st' = next_loc st
   end).
Proof.
  intros Hc H. unfold commitCellValue in H. rewrite Hc in H.
  destruct (nth_z (data st) r) as [row|];
    destruct endEdit; inversion H; subst; simpl; repeat split.
Qed.

Lemma commitCellValue_Done (st : Core num) r c raw endEdit col :
  nth_z (cols st) c = Some col ->
  exists st', commitCellValue Number dateFormat r c raw endEdit st = Done st'.
Proof.
  intros Hc. unfold commitCellValue. rewrite Hc.
  destruct (nth_z (data st) r); eexists; reflexivity.
Qed.

Lemma read_new_cells (h : Heap num) (l : loc) (row : RowData) k k' v i ind :
  read_cell (<[l := <[k := v]> (default ∅ (h !! cells row))]> h) (mkRow i ind l) k' =
  if String.eqb k' k then v else read_cell h row k'.
Proof.
  unfold read_cell. simpl. rewrite lookup_insert_eq. simpl.
  destruct (String.eqb_spec k' k) as [->|Hne].
  - rewrite lookup_insert_eq. reflexivity.
  - rewrite lookup_insert_ne by congruence.
    destruct (h !! cells row); reflexivity.
Qed.

(** What a commit on an existing row and column does to the collection. *)
Lemma commitCellValue_effect (st st' : Core num) r c raw endEdit col row :
  locs_below st ->
  nth_z (cols st) c = Some col ->
  nth_z (data st) r = Some row ->
  commitCellValue Number dateFormat r c raw endEdit st = Done st' ->
  denote (heap st') (data st) = denote (heap st) (data st) /\
  length (data st') = length (data st) /\
  (forall i, Z.of_nat i <> r -> data st' !! i = data st !! i) /\
  id (data st' !!! Z.to_nat r) = id row /\ indent (data st' !!! Z.to_nat r) = indent row /\
  (forall k, read_cell (heap st') (data st' !!! Z.to_nat r) k =
             if String.eqb k (key col) then coerce Number dateFormat col raw
             else read_cell (heap st) row k) /\
  cols st' = cols st /\ locs_below st'.
Proof.
  intros Hl Hc Hr H.
  destruct (commitCellValue_state st st' r c raw endEdit col Hc H) as (Hcols & _ & _ & _ & _ & Hm).
  rewrite Hr in Hm. destruct Hm as (Hd & Hh & Hn).
  apply nth_z_Some in Hr as [Hr0 Hk].
  assert (Hd' : data st' = <[Z.to_nat r := mkRow (id row) (indent row) (next_loc st)]> (data st)).
  { rewrite Hd. apply (imap_at_eq _ _ _ row (fun row' => mkRow (id row') (indent row') (next_loc st)));
      [lia | exact Hk]. }
  pose proof (lookup_lt_Some _ _ _ Hk) as Hlt.
  unfold locs_below in *.
  split; [|split; [|split; [|split; [|split; [|split; [|split]]]]]].
  - unfold denote. rewrite Hh. apply map_ext_in. intros row' Hin.
    rewrite List.Forall_forall in Hl. specialize (Hl row' Hin).
    rewrite lookup_insert_ne by lia. reflexivity.
  - rewrite Hd'. apply length_insert.
  - intros i Hi. rewrite Hd'. apply list_lookup_insert_ne. lia.
  - rewrite Hd', list_lookup_total_insert_eq by exact Hlt. reflexivity.
  - rewrite Hd', list_lookup_total_insert_eq by exact Hlt. reflexivity.
  - intros k. rewrite Hd', list_lookup_total_insert_eq by exact Hlt. rewrite Hh.
    apply read_new_cells.
  - exact Hcols.
  - rewrite Hd', Hn. apply Forall_insert; [|simpl; lia].
    revert Hl. apply List.Forall_impl. intros x Hx. lia.
Qed.

(** X1: a cell commit on an existing row and column copies the row and
    its [cells] object: the collection the host held before reads the
    same afterwards; the new collection differs from it only at row [r],
    which keeps its id and indent and reads the parsed value at the
    column's key and the old values at every other key. *)
Theorem commitCellValue_copy_on_write (st st' : Core num) r c raw endEdit col row :
  locs_below st ->
  nth_z (cols st) c = Some col ->
  nth_z (data st) r = Some row ->
  commitCellValue Number dateFormat r c raw endEdit st = Done st' ->
  denote (heap st') (data st) = denote (heap st) (data st) /\
  length (data st') = length (data st) /\
  (forall i, Z.of_nat i <> r -> data st' !! i = data st !! i) /\
  id (data st' !!! Z.to_nat r) = id row /\ indent (data st' !!! Z.to_nat r) = indent row /\
  (forall k, read_cell (heap st') (data st' !!! Z.to_nat r) k =
             if String.eqb k (key col) then coerce Number dateFormat col raw
             else read_cell (heap st) row k) /\
  locs_below st'.
Proof.
  intros Hl Hc Hr H.
  destruct (commitCellValue_effect st st' r c raw endEdit col row Hl Hc Hr H)
    as (A & B & C & D & E & F & _ & G). auto 8.
Qed.

(** X2: a commit on a row index outside the collection (an existing
    column) writes no cell, yet hands the host an unchanged copy of the
    collection and emits a commit record whose previous value is
    [undefined]. *)
Theorem commitCellValue_missing_row_still_notifies (st st' : Core num) r c raw endEdit col :
  nth_z (cols st) c = Some col ->
  nth_z (data st) r = None ->
  commitCellValue Number dateFormat r c raw endEdit st = Done st' ->
  data st' = data st /\ heap st' = heap st /\
  host_rows st' = host_rows st ++ [data st] /\
  commits st' = commits st ++ [mkCommit r c (key col) CUndefined (coerce Number dateFormat col raw)].
Proof.
  intros Hc Hr H.
  destruct (commitCellValue_state st st' r c raw endEdit col Hc H) as (_ & _ & _ & Hh & Hm & Hd).
  rewrite Hr in Hd. destruct Hd as (Hd & Hp & _).
  unfold cell_at in Hm. rewrite Hr in Hm.
  rewrite Hd in Hh. auto.
Qed.

(** X3: a [commitEdit] naming a column that does not exist throws after
    setting the session guard: nothing is written or emitted, the editor
    stays open, and every later [commitEdit] of the session is dropped. *)
Theorem commitEdit_throw_consumes_guard (st : Core num) r c v :
  nth_z (cols st) c = None ->
  lastCommittedSession st <> Some (editSessionId st) ->
  exists st', commitEdit Number dateFormat r c v st = Throws st' /\
    data st' = data st /\ heap st' = heap st /\ host_rows st' = host_rows st /\
    commits st' = commits st /\ editing st' = editing st /\
    forall calls, commit_calls Number dateFormat calls st' = Done st'.
Proof.
  intros Hc Hg. unfold commitEdit. rewrite decide_False by exact Hg.
  unfold commitCellValue. simpl. rewrite Hc.
  eexists. split; [reflexivity|]. simpl. repeat split.
  intros calls. apply commit_calls_guarded. reflexivity.
Qed.

End Effect.

Import Samples.

Lemma commitCellValue_copy_on_write_witness :
  exists st', commitCellValue sample_Number "dd.mm.yyyy" 0 0 "y" true one_cell = Done st' /\
    denote (heap st') (data one_cell) = [("r", 0, Some {[ "a" := CStr "x" ]})] /\
    read_cell (heap st') (data st' !!! 0%nat) "a" = CStr "y".
Proof.
  eexists. split; [reflexivity|].
  destruct (commitCellValue_copy_on_write sample_Number "dd.mm.yyyy" one_cell _ 0 0 "y" true colA
              (mkRow "r" 0 0%nat) ltac:(repeat constructor) eq_refl eq_refl eq_refl)
    as (A & _ & _ & _ & _ & F & _).
  split; [rewrite A; reflexivity|]. exact (eq_trans (F "a") eq_refl).
Defined.

Lemma commitCellValue_missing_row_still_notifies_witness :
  exists st', commitCellValue sample_Number "dd.mm.yyyy" 4 0 "y" true one_cell = Done st' /\
    commits st' = [mkCommit 4 0 "a" CUndefined (CStr "y")].
Proof.
  eexists. split; [reflexivity|].
  destruct (commitCellValue_missing_row_still_notifies sample_Number "dd.mm.yyyy" one_cell _ 4 0 "y" true
              colA eq_refl eq_refl eq_refl) as (_ & _ & _ & H).
  rewrite H. reflexivity.
Defined.

Lemma commitEdit_throw_consumes_guard_witness :
  exists st', commitEdit sample_Number "dd.mm.yyyy" 0 3 "y" one_cell = Throws st' /\
    commit_calls sample_Number "dd.mm.yyyy" [(0, 0, "y")] st' = Done st'.
Proof.
  destruct (commitEdit_throw_consumes_guard sample_Number "dd.mm.yyyy" one_cell 0 3 "y"
              eq_refl ltac:(discriminate)) as (st' & E & _ & _ & _ & _ & _ & H).
  exists st'. split; [exact E | apply H].
Defined.

End CommitEffectTheorems.

(* ================================================================== *)
(** * Pointer drags                                                    *)
(* ================================================================== *)

Module DragTheorems.
Import Grid Ops.

Lemma run_moves_dragging d moves :
  active d = true -> dragging d = true ->
  fst (run_moves (Some d) moves) = Some d /\
  (snd (run_moves (Some d) moves) = [] <-> Forall (fun m => snd m = None) moves).
Proof.
  intros Ha Hd. destruct d as [a dg r0 c0 xx yy]; simpl in Ha, Hd; subst a dg.
  induction moves as [|[[x y] t] moves IH].
  - simpl. split; [reflexivity|]. split; intros; [constructor|reflexivity].
  - destruct IH as [IH1 IH2]. destruct t as [[r c]|]; simpl;
      destruct (run_moves _ moves) as [ds'' ss]; simpl in IH1, IH2 |- *; (split; [exact IH1|]).
    + split; [discriminate|]. intros H. inversion H as [|? ? Hn]. discriminate Hn.
    + rewrite IH2. split; [intros H; constructor; [reflexivity|exact H]|].
      intros H. inversion H. assumption.
Qed.

Lemma run_moves_still d moves :
  active d = true -> dragging d = false ->
  (x0 d - y0 d) * (x0 d - y0 d) <= 16 ->
  Forall (fun m => fst (fst m) = x0 d) moves ->
  run_moves (Some d) moves = (Some d, []).
Proof.
  intros Ha Hd Hq Hx. destruct d as [a dg r0 c0 xx yy]; simpl in *; subst a dg.
  induction Hx as [|[[x y] t] moves Hx0 _ IH]; [reflexivity|].
  simpl in Hx0. subst x. simpl.
  rewrite (proj2 (Z.ltb_ge _ _)) by (unfold DRAG_THRESHOLD_PX; lia). simpl.
  rewrite IH. reflexivity.
Qed.

(** X4: between a [mousedown] at the client point [(x, y)] and the next
    [mouseup], let the pointer move only vertically (every [clientX] is
    [x]).  Then a selection is set exactly when [(x - y)^2 > 16] and the
    pointer passes over some cell: how far the pointer moves plays no
    part, and a drag starts even on a move that leaves it in place. *)
Theorem onMouseMove_vertical_drag (r c x y : Z) (moves : list (Z * Z * option (Z * Z))) :
  Forall (fun m => fst (fst m) = x) moves ->
  snd (run_moves (Some (snd (onCellMouseDown r c x y))) moves) = [] <->
  (x - y) * (x - y) <= 16 \/ Forall (fun m => snd m = None) moves.
Proof.
  intros Hx. simpl.
  destruct (Z.le_gt_cases ((x - y) * (x - y)) 16) as [Hq|Hq].
  - rewrite (run_moves_still (mkDrag true false r c x y) moves eq_refl eq_refl Hq Hx).
    simpl. split; [intros _; left; exact Hq|reflexivity].
  - destruct moves as [|[[x' y'] t] moves]; simpl.
    + split; intros _; [right; constructor|reflexivity].
    + inversion Hx as [|? ? Hx0 _]; simpl in Hx0; subst x'.
      simpl.
      rewrite (proj2 (Z.ltb_lt _ _)) by (unfold DRAG_THRESHOLD_PX; lia). simpl.
      destruct (run_moves_dragging (mkDrag true true r c x y) moves eq_refl eq_refl) as [_ H2].
      destruct t as [[r' c']|]; simpl;
        destruct (run_moves _ moves) as [ds'' ss]; simpl in H2 |- *.
      * split; [discriminate|]. intros [Hl|Hl]; [lia|]. inversion Hl as [|? ? Hn]. discriminate Hn.
      * rewrite H2. split; [intros Hl; right; constructor; [reflexivity|exact Hl]|].
        intros [Hl|Hl]; [lia|]. inversion Hl. assumption.
Qed.

Lemma onMouseMove_vertical_drag_witness :
  Forall (fun m => fst (fst m) = 100) [(100, 100, None); (100, 400, Some (7, 0))] /\
  snd (run_moves (Some (snd (onCellMouseDown 0 0 100 100))) [(100, 100, None); (100, 400, Some (7, 0))]) = [] /\
  Forall (fun m => fst (fst m) = 100) [(100, 20, Some (0, 0))] /\
  snd (run_moves (Some (snd (onCellMouseDown 0 0 100 20))) [(100, 20, Some (0, 0))]) <> [].
Proof.
  assert (F1 : Forall (fun m => fst (fst m) = 100) [(100, 100, None); (100, 400, Some (7, 0))])
    by (repeat constructor).
  assert (F2 : Forall (fun m => fst (fst m) = 100) [(100, 20, Some (0, 0))]) by (repeat constructor).
  split; [exact F1|]. split.
  - apply (onMouseMove_vertical_drag 0 0 100 100 _ F1). left. lia.
  - split; [exact F2|]. intros H.
    apply (onMouseMove_vertical_drag 0 0 100 20 _ F2) in H as [H|H]; [lia|].
    inversion H as [|? ? Hn]. discriminate Hn.
Defined.

(** X5: the rectangle a drag selects is the bounding box of the anchor
    cell and the cell under the pointer: it contains both, and lies
    inside every rectangle that contains both. *)
Theorem onMouseMove_bounding_box d x y r c d' s :
  onMouseMove (Some d) x y (Some (r, c)) = (d', Some s) ->
  (r1 s <= dr0 d <= r2 s /\ r1 s <= r <= r2 s /\ c1 s <= dc0 d <= c2 s /\ c1 s <= c <= c2 s) /\
  forall R1 R2 C1 C2, R1 <= dr0 d <= R2 -> R1 <= r <= R2 -> C1 <= dc0 d <= C2 -> C1 <= c <= C2 ->
    R1 <= r1 s /\ r2 s <= R2 /\ C1 <= c1 s /\ c2 s <= C2.
Proof.
  unfold onMouseMove.
  destruct (active d); simpl; [|intros H; discriminate H].
  destruct (negb (dragging d) && _); simpl;
    [|destruct (negb (dragging d)); [intros H; discriminate H|]];
    intros H; inversion H; subst; simpl; split; intros; lia.
Qed.

Lemma onMouseMove_bounding_box_witness :
  onMouseMove (Some (mkDrag true true 3 1 0 0)) 50 50 (Some (1, 4)) = (Some (mkDrag true true 3 1 0 0), Some (mkSel 1 3 1 4)) /\
  1 <= 3 <= 3.
Proof.
  split; [reflexivity|].
  destruct (onMouseMove_bounding_box (mkDrag true true 3 1 0 0) 50 50 1 4 _ _ eq_refl) as [[H _] _].
  exact H.
Defined.

(** X6: once the button is released, no pointer move changes the
    selection or the drag state until the next [mousedown]. *)
Theorem onMouseUp_ends_drag ds sup x y t :
  snd (onMouseMove (fst (onMouseUp ds sup)) x y t) = None /\
  fst (onMouseMove (fst (onMouseUp ds sup)) x y t) = fst (onMouseUp ds sup).
Proof. destruct ds as [d|]; split; reflexivity. Qed.

End DragTheorems.

(* ================================================================== *)
(** * Parents, visibility and the collapse set                         *)
(* ================================================================== *)

Module HierarchyTheorems.
Import Grid Ops Outline OutlineTheorems NavigationTheorems.

Section Rows.
Variable rows : list RowData.
Local Abbreviation ind a := (indent (rows !!! a)).

Lemma chc_loop_keys_sound fuel :
  forall i cm,
  (forall a, a ∈ dom cm -> (S a < i)%nat /\ ind a < ind (S a)) ->
  forall a, a ∈ dom (chc_loop rows fuel i (map (fun a => (a, ind a)) (open_list rows i)) cm) ->
  (S a < i + fuel)%nat /\ ind a < ind (S a).
Proof.
  induction fuel as [|fuel IH]; intros i cm Hinv a Ha.
  { simpl in Ha. rewrite Nat.add_0_r. apply Hinv, Ha. }
  simpl chc_loop in Ha. cbv zeta in Ha.
  rewrite (pop_open rows snd (fun a => (a, ind a)) (fun a => eq_refl) i) in Ha.
  assert (Hanc : forall p l, List.filter (fun a => is_anc rows a i) (rev (seq 0 i)) = p :: l ->
                   is_anc rows p i = true).
  { intros p l E. assert (Hp : In p (List.filter (fun a => is_anc rows a i) (rev (seq 0 i))))
      by (rewrite E; left; reflexivity).
    apply filter_In in Hp. apply Hp. }
  change ((i, ind i) :: map (fun a => (a, ind a)) (List.filter (fun a => is_anc rows a i) (rev (seq 0 i))))
    with (map (fun a => (a, ind a)) (i :: List.filter (fun a => is_anc rows a i) (rev (seq 0 i)))) in Ha.
  rewrite <- open_list_S in Ha.
  replace (i + S fuel)%nat with (S i + fuel)%nat by lia.
  revert Ha. apply IH.
  intros b Hb.
  destruct (List.filter (fun a => is_anc rows a i) (rev (seq 0 i))) as [|p l] eqn:E.
  - simpl in Hb. destruct (Hinv b Hb). split; [lia|assumption].
  - simpl in Hb. rewrite dom_insert_L in Hb. apply elem_of_union in Hb as [Hb|Hb].
    + apply elem_of_singleton in Hb as ->.
      pose proof (Hanc p l eq_refl) as H. unfold is_anc in H.
      apply andb_prop in H as [Hpi H]. apply Nat.ltb_lt in Hpi.
      rewrite forallb_forall in H. specialize (H (S p) ltac:(apply in_seq; lia)).
      apply Z.ltb_lt in H. split; [lia | exact H].
    + destruct (Hinv b Hb). split; [lia|assumption].
Qed.

End Rows.

(** X7: the rows [computeHasChildren] marks as parents are exactly the
    rows followed by a row indented deeper: [a] is marked iff row [a + 1]
    exists and its indent exceeds row [a]'s. *)
Theorem computeHasChildren_spec (rows : list RowData) (a : nat) :
  a ∈ computeHasChildren rows <->
  (S a < length rows)%nat /\ indent (rows !!! a) < indent (rows !!! S a).
Proof.
  split.
  - intros H. unfold computeHasChildren in H.
    apply (chc_loop_keys_sound rows (length rows) 0 ∅) in H; [exact H|].
    intros b Hb. rewrite dom_empty_L in Hb. set_solver.
  - intros [Ha Hlt]. unfold computeHasChildren.
    apply (chc_loop_keys rows (length rows) 0 ∅); [intros; lia | lia | exact Hlt].
Qed.

(** X8: when no row's id is in the collapse set, every row is visible,
    whatever rows are marked as parents. *)
Theorem visibleRowIndices_nothing_collapsed (rows : list RowData) (hc : gset nat) (coll : gset string) :
  (forall i, (i < length rows)%nat -> id (rows !!! i) ∉ coll) ->
  visibleRowIndices rows hc coll = seq 0 (length rows).
Proof.
  intros H. rewrite visibleRowIndices_filter. apply filter_all.
  intros j Hj. apply in_seq in Hj. apply negb_true_iff.
  unfold hidden_b. destruct (existsb _ _) eqn:E; [|reflexivity].
  apply existsb_exists in E as [a [Ha Hb]]. apply in_seq in Ha.
  apply andb_prop in Hb as [_ Hb]. unfold vis_entry in Hb. simpl in Hb.
  destruct (bool_decide (a ∈ hc)); [|discriminate].
  apply bool_decide_eq_true in Hb. exfalso. apply (H a); [lia | exact Hb].
Qed.

(** X9: toggling the same row id twice gives back the state. *)
Theorem toggleCollapsed_involutive {num} (x : string) (st : Core num) :
  toggleCollapsed x (toggleCollapsed x st) = st.
Proof.
  destruct st as [cs d h n s e v sid last C hr cm].
  unfold toggleCollapsed, set_collapsed. simpl. f_equal.
  destruct (decide (x ∈ C)) as [Hx|Hx].
  - rewrite (bool_decide_eq_true_2 _ Hx).
    rewrite bool_decide_eq_false_2 by set_solver.
    apply set_eq. intros y. destruct (decide (y = x)) as [->|Hne]; set_solver.
  - rewrite (bool_decide_eq_false_2 _ Hx).
    rewrite bool_decide_eq_true_2 by set_solver. set_solver.
Qed.

Lemma visible_not_hidden (rows : list RowData) (C : gset string) j :
  In j (visibleRowIndices rows (computeHasChildren rows) C) ->
  (j < length rows)%nat /\ ~ (exists a, is_anc rows a j = true /\ id (rows !!! a) ∈ C).
Proof.
  rewrite visibleRowIndices_filter, filter_In, in_seq. intros [Hj Hh].
  split; [lia|]. intros [a [Hanc Ha]].
  rewrite hidden_hc in Hh by lia. apply negb_true_iff in Hh.
  assert (Ht : existsb (fun a => is_anc rows a j && bool_decide (id (rows !!! a) ∈ C)) (seq 0 j) = true).
  { apply existsb_exists. exists a. split; [apply in_seq; pose proof (is_anc_lt _ _ _ Hanc); lia|].
    rewrite Hanc. simpl. apply bool_decide_eq_true. exact Ha. }
  congruence.
Qed.

Section Paste.
Context {num : Type}.
Variable Number : string -> num.
Variable dateFormat : string.
Variable parseClipboard : string -> list (list string).

(** X10: a paste whose anchor row [r1] lies inside a collapsed group
    (it has an ancestor whose id is collapsed) or below the last row does
    nothing: no cell is written and the host is not notified. *)
Theorem onPaste_hidden_anchor_noop (st : Core num) (txt : string) :
  let rows := data st in
  (exists a j, r1 (sel st) = Z.of_nat j /\ is_anc rows a j = true /\ id (rows !!! a) ∈ collapsed st) \/
  Z.of_nat (length rows) <= r1 (sel st) ->
  onPaste Number dateFormat parseClipboard txt st = st.
Proof.
  intros rows H. unfold onPaste.
  destruct (negb (hasSel (sel st))); [reflexivity|].
  destruct (String.eqb txt ""); [reflexivity|]. cbv zeta.
  rewrite indexOf_None; [reflexivity|].
  intros v Hv E. apply visible_not_hidden in Hv as [Hlt Hno].
  destruct H as [(a & j & Hr & Hanc & Ha)|H].
  - apply Hno. exists a. rewrite Hr in E. apply Nat2Z.inj in E. subst j. auto.
  - fold rows in Hlt. lia.
Qed.

End Paste.

Import Samples.

Lemma visibleRowIndices_nothing_collapsed_witness :
  visibleRowIndices (data outline3) (computeHasChildren (data outline3)) {[ "x" ]} = [0; 1; 2]%nat.
Proof.
  rewrite (visibleRowIndices_nothing_collapsed (data outline3) _ {[ "x" ]}); [reflexivity|].
  intros i Hi. simpl in Hi.
  destruct i as [|[|[|i]]]; [| | |lia]; vm_compute; set_solver.
Defined.

Lemma onPaste_hidden_anchor_noop_witness :
  onPaste sample_Number "dd.mm.yyyy" one_cell_clipboard "z" outline3_hidden_sel = outline3_hidden_sel.
Proof.
  apply onPaste_hidden_anchor_noop. left. exists 0%nat, 1%nat.
  split; [reflexivity|]. split; [reflexivity|]. vm_compute. set_solver.
Defined.

End HierarchyTheorems.

Module KeyboardTheorems.
Import Js DateCodec Grid Ops CommitTheorems.

Lemma indexOf_In (l : list nat) (v : nat) :
  In v l -> exists i, indexOf l (Z.of_nat v) = Some i /\ (i < length l)%nat /\ l !! i = Some v.
Proof.
  induction l as [|a l IH]; intros Hv; [destruct Hv|]. simpl.
  destruct (Z.eqb_spec (Z.of_nat a) (Z.of_nat v)) as [E|E].
  - apply Nat2Z.inj in E. subst. exists 0%nat. simpl. split; [reflexivity|]. split; [lia|reflexivity].
  - destruct Hv as [->|Hv]; [congruence|].
    destruct (IH Hv) as (i & Hi & Hl & Hget). exists (S i). rewrite Hi. simpl. split; [reflexivity|].
    split; [lia|exact Hget].
Qed.

Lemma find_In' (p : nat -> bool) (l : list nat) v : find p l = Some v -> In v l.
Proof.
  induction l as [|a l IH]; simpl; [discriminate|].
  destruct (p a); [intros [= ->]; left; reflexivity | intros H; right; apply IH, H].
Qed.

Lemma at_in (l : list nat) (vi : Z) :
  0 <= vi <= Z.of_nat (length l) - 1 -> In (l !!! Z.to_nat vi) l.
Proof.
  intros H. apply list_elem_of_In, list_elem_of_lookup_total_2. lia.
Qed.

Lemma nextPosAfter_lands (visible : list nat) (ncols : nat) (r c : Z) (dir : Dir) :
  visible <> [] -> 0 <= c < Z.of_nat ncols ->
  lands_on visible ncols (nextPosAfter visible ncols r c dir).
Proof.
  intros Hne Hc. unfold nextPosAfter, lands_on.
  assert (Hlen : (0 < length visible)%nat) by (destruct visible; [congruence|simpl; lia]).
  destruct (indexOf visible r) as [idx|] eqn:Ei.
  - assert (Hidx : (idx < length visible)%nat /\ exists v, visible !! idx = Some v /\ Z.of_nat v = r).
    { clear -Ei. revert idx Ei. induction visible as [|a l IH]; intros idx Ei; simpl in Ei; [discriminate|].
      destruct (Z.eqb_spec (Z.of_nat a) r) as [E|E].
      - injection Ei as <-. simpl. split; [lia|]. exists a. split; [reflexivity|exact E].
      - destruct (indexOf l r) as [j|] eqn:Ej; simpl in Ei; [|discriminate].
        injection Ei as <-. destruct (IH j eq_refl) as [Hj [v Hv]]. simpl. split; [lia|].
        exists v. exact Hv. }
    destruct Hidx as [Hidx [v [Hv Hr]]].
    assert (Hrv : exists w, In w visible /\ r = Z.of_nat w)
      by (exists v; split; [apply list_elem_of_In; eapply list_elem_of_lookup_2; exact Hv | symmetry; exact Hr]).
    destruct dir; simpl.
    + split; [|lia]. eexists. split. 2: reflexivity. apply at_in; lia.
    + split; [|lia]. eexists. split. 2: reflexivity. apply at_in; lia.
    + destruct (Z.of_nat ncols - 1 <? c + 1) eqn:E; simpl.
      * split; [|lia]. eexists. split. 2: reflexivity. apply at_in; lia.
      * apply Z.ltb_ge in E. split; [exact Hrv|lia].
    + destruct (c - 1 <? 0) eqn:E; simpl.
      * split; [|lia]. eexists. split. 2: reflexivity. apply at_in; lia.
      * apply Z.ltb_ge in E. split; [exact Hrv|lia].
  - split; [|simpl; lia].
    destruct (find (fun v => r <=? Z.of_nat v) visible) as [v|] eqn:Ef.
    + exists v. split; [eapply find_In'; exact Ef | reflexivity].
    + destruct (visible !! (length visible - 1)%nat) as [v|] eqn:El.
      * exists v. split; [apply list_elem_of_In; eapply list_elem_of_lookup_2; exact El | reflexivity].
      * apply lookup_ge_None in El. lia.
Qed.

Lemma nav_keys_cases (k : string) :
  existsb (String.eqb k) nav_keys = true ->
  k = "ArrowUp" \/ k = "ArrowDown" \/ k = "ArrowLeft" \/ k = "ArrowRight" \/ k = "Tab" \/ k = "Enter".
Proof.
  intros H. unfold nav_keys in H. cbn [existsb] in H. rewrite orb_false_r in H.
  repeat rewrite orb_true_iff in H. rewrite !String.eqb_eq in H. tauto.
Qed.

(** X11: when some row is visible and the column [c] is a column index,
    [nextPosAfter] always answers a visible row and a column index, in
    every direction, wherever [r] is (on a visible row or not). *)
Theorem nextPosAfter_lands_on_visible (visible : list nat) (ncols : nat) (r c : Z) (dir : Dir) :
  visible <> [] -> 0 <= c < Z.of_nat ncols ->
  lands_on visible ncols (nextPosAfter visible ncols r c dir).
Proof. apply nextPosAfter_lands. Qed.

Section Keys.
Context {num : Type}.
Variable Number : string -> num.
Variable NumberToString : num -> string.
Variable dateFormat : string.

(** X12: while a cell is being edited, or when nothing is selected, the
    [keydown] handler leaves the state as it is, whatever the key. *)
Theorem onKey_inert (visible : list nat) (e : KeyEvent) (st : Core num) :
  editing st <> None \/ hasSel (sel st) = false ->
  onKey NumberToString visible e st = Done st.
Proof.
  intros H. unfold onKey.
  destruct (editing st) as [x|]; [reflexivity|].
  destruct H as [H|H]; [congruence|]. rewrite H. simpl.
  repeat match goal with |- context [if ?b then _ else _] => destruct b end; reflexivity.
Qed.

(** X14: a one-character key without Ctrl or Meta, pressed on a selection
    whose anchor column exists, opens a [Replace] editor at the anchor
    seeded with the key, whose text is the key; committing that text then
    hands the host one commit record, from the anchor's stored value to
    the key coerced by the column. *)
Theorem onKey_printable_starts_replace (visible : list nat) (e : KeyEvent) (st : Core num) (col : ColumnDef) :
  editing st = None -> hasSel (sel st) = true ->
  String.length (kb_key e) = 1%nat -> ctrlKey e = false -> metaKey e = false ->
  nth_z (cols st) (c1 (sel st)) = Some col ->
  exists st1 st2,
    onKey NumberToString visible e st = Done st1 /\
    editing st1 = Some (mkEdit (r1 (sel st)) (c1 (sel st)) Replace (Some (kb_key e))) /\
    editValue st1 = kb_key e /\
    commitEdit Number dateFormat (r1 (sel st)) (c1 (sel st)) (editValue st1) st1 = Done st2 /\
    commits st2 = commits st ++
      [mkCommit (r1 (sel st)) (c1 (sel st)) (key col) (cell_at st (r1 (sel st)) (key col))
                (coerce Number dateFormat col (kb_key e))].
Proof.
  intros Hed Hs Hl Hctrl Hmeta Hc. unfold onKey. rewrite Hed, Hs, Hctrl, Hmeta.
  destruct e as [k alt sh ctrl meta]. cbn [kb_key altKey shiftKey ctrlKey metaKey] in *.
  assert (Hk1 : String.eqb k "ArrowLeft" = false /\ String.eqb k "ArrowRight" = false /\
                existsb (String.eqb k) nav_keys = false).
  { destruct k as [|a [|b k]]; simpl in Hl; try discriminate. simpl.
    repeat split; repeat match goal with |- context [if ?b then _ else _] => destruct b end; reflexivity. }
  destruct Hk1 as [HL [HR Hn]]. rewrite HL, HR, Hn, andb_false_r.
  assert (Hl' : (String.length k =? 1)%nat = true) by (apply Nat.eqb_eq; exact Hl).
  rewrite Hl'. simpl.
  rewrite (startEditing_col NumberToString (mkEdit (r1 (sel st)) (c1 (sel st)) Replace (Some k)) st col Hc).
  simpl.
  set (st1 := set_editing (set_editValue (set_session st (S (editSessionId st)) None) k)
                (Some (mkEdit (r1 (sel st)) (c1 (sel st)) Replace (Some k)))).
  assert (Hg : lastCommittedSession st1 <> Some (editSessionId st1)) by (simpl; discriminate).
  destruct (commitEdit_first Number dateFormat st1 (r1 (sel st)) (c1 (sel st)) k col Hg Hc)
    as (st2 & Hst2 & _ & Hcm & _).
  exists st1, st2. repeat split; [exact Hst2|]. rewrite Hcm. reflexivity.
Qed.

Lemma copy_cells_eq (st : Core num) row (cs : list Z) :
  (forall c, In c cs -> 0 <= c < Z.of_nat (length (cols st))) ->
  copy_cells dateFormat st row cs =
    Some (map (fun c => displayValue dateFormat (cols st !!! Z.to_nat c)
                 (stored_or_empty (read_cell (heap st) row (key (cols st !!! Z.to_nat c))))) cs).
Proof.
  induction cs as [|c cs IH]; intros H; simpl; [reflexivity|].
  destruct (H c (or_introl eq_refl)) as [H0 H1].
  unfold nth_z. rewrite (proj2 (Z.ltb_ge _ 0)) by lia.
  rewrite list_lookup_lookup_total_lt by lia.
  rewrite IH by (intros x Hx; apply H; right; exact Hx). reflexivity.
Qed.

Lemma copy_rows_eq (st : Core num) (vis : list nat) (s : Selection) :
  0 <= c1 s -> c2 s < Z.of_nat (length (cols st)) ->
  copy_rows dateFormat st vis s =
    Some (map (fun r => map (fun c => displayValue dateFormat (cols st !!! Z.to_nat c)
                              (stored_or_empty (read_cell (heap st) (data st !!! r) (key (cols st !!! Z.to_nat c)))))
                           (map (fun k => c1 s + Z.of_nat k) (seq 0 (Z.to_nat (c2 s - c1 s + 1)))))
              (copied_rows vis s)).
Proof.
  intros H1 H2. unfold copied_rows. induction vis as [|r vis IH]; simpl; [reflexivity|].
  destruct ((Z.of_nat r <? r1 s) || (r2 s <? Z.of_nat r)); simpl; [exact IH|].
  rewrite copy_cells_eq.
  - rewrite IH. reflexivity.
  - intros c Hc. apply in_map_iff in Hc as [k [<- Hk]]. apply in_seq in Hk. lia.
Qed.

(** X15: with a selection inside the columns, [onCopy] never throws; it
    puts on the clipboard one line per visible row between [r1] and
    [r2], in the visible order, and the line of row [r] holds, for the
    columns [c1] to [c2], the [displayValue] of the cell of row [r] (an
    undefined or null cell read as the empty string); it puts nothing
    when no visible row lies in that range. *)
Theorem onCopy_lines (st : Core num) :
  hasSel (sel st) = true -> c2 (sel st) < Z.of_nat (length (cols st)) ->
  let rs := copied_rows (visibleRowIndices (data st) (computeHasChildren (data st)) (collapsed st)) (sel st) in
  let cs := map (fun k => c1 (sel st) + Z.of_nat k) (seq 0 (Z.to_nat (c2 (sel st) - c1 (sel st) + 1))) in
  let line r := map (fun c => displayValue dateFormat (cols st !!! Z.to_nat c)
                      (stored_or_empty (read_cell (heap st) (data st !!! r) (key (cols st !!! Z.to_nat c))))) cs in
  onCopy dateFormat st = Done (match rs with [] => None | _ => Some (map line rs) end).
Proof.
  intros Hs Hc rs cs line. unfold onCopy. rewrite Hs. simpl.
  assert (H1 : 0 <= c1 (sel st))
    by (unfold hasSel in Hs; repeat rewrite andb_true_iff in Hs; destruct Hs as [[[_ H] _] _];
        apply Z.leb_le in H; exact H).
  rewrite (copy_rows_eq st _ (sel st) H1 Hc). fold rs. destruct rs; reflexivity.
Qed.


End Keys.

Import Samples.

Lemma nextPosAfter_lands_on_visible_witness :
  lands_on [0; 2]%nat 3 (nextPosAfter [0; 2]%nat 3 1 2 Right).
Proof.
  apply nextPosAfter_lands_on_visible; [discriminate | lia].
Defined.

Lemma onKey_inert_witness :
  onKey sample_String [0]%nat (mkKey "x" false false false false) (set_sel one_cell NOSEL)
  = Done (set_sel one_cell NOSEL).
Proof.
  apply onKey_inert. right. reflexivity.
Defined.

(** X13: the effect that installs the [keydown] listener depends on
    [startEditing] only, which changes only with the [onEditingChange]
    prop; while that prop keeps its identity (or is absent) the listener
    keeps the list of visible rows of the render that installed it.  On
    [outline3], installed with nothing collapsed, once row p is collapsed
    (so that its child q is hidden), ArrowDown from (0, 0) selects row q,
    which is not visible. *)
Theorem onKey_stale_visible_selects_hidden :
  onKey sample_String (visibleRowIndices (data outline3) (computeHasChildren (data outline3)) (collapsed outline3))
    (mkKey "ArrowDown" false false false false) (toggleCollapsed "p" (set_sel outline3 (mkSel 0 0 0 0)))
  = Done (set_sel (toggleCollapsed "p" (set_sel outline3 (mkSel 0 0 0 0))) (mkSel 1 1 0 0)) /\
  ~ In 1%nat (visibleRowIndices (data (toggleCollapsed "p" (set_sel outline3 (mkSel 0 0 0 0))))
                (computeHasChildren (data (toggleCollapsed "p" (set_sel outline3 (mkSel 0 0 0 0)))))
                (collapsed (toggleCollapsed "p" (set_sel outline3 (mkSel 0 0 0 0))))).
Proof.
  split.
  - vm_compute. reflexivity.
  - vm_compute. intuition discriminate.
Qed.

Lemma onKey_printable_starts_replace_witness :
  exists st1 st2,
    onKey sample_String [0]%nat (mkKey "z" false false false false) one_cell = Done st1 /\
    editing st1 = Some (mkEdit 0 0 Replace (Some "z")) /\
    editValue st1 = "z" /\
    commitEdit sample_Number "dd.mm.yyyy" 0 0 (editValue st1) st1 = Done st2 /\
    commits st2 = [mkCommit 0 0 "a" (CStr "x") (CStr "z")].
Proof.
  exact (onKey_printable_starts_replace sample_Number sample_String "dd.mm.yyyy" [0]%nat
           (mkKey "z" false false false false) one_cell colA
           eq_refl eq_refl eq_refl eq_refl eq_refl eq_refl).
Defined.

Lemma onCopy_lines_witness :
  onCopy "dd.mm.yyyy" three_cols = Done (Some [[CStr "x"; CStr ""]]).
Proof.
  exact (onCopy_lines "dd.mm.yyyy" three_cols eq_refl ltac:(simpl; lia)).
Defined.


End KeyboardTheorems.

Module DropTheorems.
Import Grid Ops IndentTheorems.

Lemma nth_z_Some_in {A} (l : list A) r x : nth_z l r = Some x -> In x l.
Proof.
  intros H. apply nth_z_Some in H as [_ H].
  apply list_elem_of_In. eapply list_elem_of_lookup_2. exact H.
Qed.

Lemma findIndex_first {A} (p : A -> bool) (l : list A) :
  (exists x, In x l /\ p x = true) ->
  exists i x, findIndex p l = Z.of_nat i /\ l !! i = Some x /\ p x = true.
Proof.
  induction l as [|a l IH]; intros [x [Hx Hp]]; [destruct Hx|]. simpl.
  destruct (p a) eqn:Pa.
  - exists 0%nat, a. auto.
  - destruct Hx as [->|Hx]; [congruence|].
    destruct (IH (ex_intro _ x (conj Hx Hp))) as (i & y & Hi & Hy & Py).
    rewrite Hi. rewrite (proj2 (Z.ltb_ge (Z.of_nat i) 0)) by lia.
    exists (S i), y. split; [lia|]. auto.
Qed.

Lemma NoDup_map_inj {A B} (f : A -> B) (l : list A) x y :
  List.NoDup (map f l) -> In x l -> In y l -> f x = f y -> x = y.
Proof.
  induction l as [|a l IH]; intros Hn Hx Hy Hf; [destruct Hx|].
  inversion Hn as [|? ? Hnot Hn']; subst.
  destruct Hx as [->|Hx], Hy as [->|Hy]; auto.
  - exfalso. apply Hnot. rewrite Hf. apply in_map. exact Hy.
  - exfalso. apply Hnot. rewrite <- Hf. apply in_map. exact Hx.
Qed.

Lemma move_col_spec (l : list ColumnDef) (from to : nat) :
  (from < length l)%nat ->
  exists next, move_col l from to = Some next /\ Permutation next l /\
    next !! Nat.min to (length l - 1) = l !! from.
Proof.
  intros H. unfold move_col.
  destruct (l !! from) as [moved|] eqn:E; [|apply lookup_ge_None in E; lia].
  set (rest := take from l ++ drop (S from) l).
  assert (Hrest : length rest = (length l - 1)%nat)
    by (unfold rest; rewrite length_app, length_take, length_drop; lia).
  eexists. split; [reflexivity|]. split.
  - transitivity (moved :: rest).
    + assert (Hm : Permutation (take to rest ++ moved :: drop to rest) (moved :: take to rest ++ drop to rest))
        by (symmetry; apply Permutation_middle).
      rewrite take_drop in Hm. exact Hm.
    + rewrite <- (take_drop_middle l from moved E) at 1. unfold rest. apply Permutation_middle.
  - rewrite list_lookup_middle; [reflexivity|]. rewrite length_take. lia.
Qed.

Lemma splice_start_nat (len from : nat) :
  (from <= len)%nat -> splice_start len (Z.of_nat from) = from.
Proof.
  intros H. unfold splice_start.
  rewrite (proj2 (Z.ltb_ge _ 0)) by lia. rewrite Z.min_l by lia. apply Nat2Z.id.
Qed.

(** Where [mapIndex] sends an index of the old order. *)
Lemma mapIndex_follows (l next : list ColumnDef) (old : Z) (oc : ColumnDef) :
  List.NoDup (map key l) -> Permutation next l -> nth_z l old = Some oc ->
  exists i, findIndex (fun c => String.eqb (key c) (key oc)) next = Z.of_nat i /\
            nth_z next (Z.of_nat i) = Some oc.
Proof.
  intros Hn Hp Ho. apply nth_z_Some_in in Ho as Hin.
  assert (Hin' : In oc next) by (apply (Permutation_in _ (Permutation_sym Hp)); exact Hin).
  destruct (findIndex_first (fun c => String.eqb (key c) (key oc)) next)
    as (i & x & Hi & Hx & Px); [exists oc; split; [exact Hin'|apply String.eqb_refl]|].
  exists i. split; [exact Hi|].
  apply String.eqb_eq in Px.
  assert (Hxin : In x next) by (apply list_elem_of_In; eapply list_elem_of_lookup_2; exact Hx).
  assert (Hnn : List.NoDup (map key next)) by (eapply Permutation_NoDup; [apply Permutation_map, Permutation_sym, Hp|exact Hn]).
  rewrite (NoDup_map_inj key next x oc Hnn Hxin Hin' Px) in Hx.
  unfold nth_z. rewrite (proj2 (Z.ltb_ge _ 0)) by lia. rewrite Nat2Z.id. exact Hx.
Qed.

Section Drop.
Context {num : Type}.

(** X17: dropping the header of column [from] on column [idx] (with the
    column keys distinct) moves that column to position [idx] (the last
    position when [idx] is past it), keeps the other columns, and remaps
    the selected columns so that [c1] and [c2] still name the same
    columns as before; the selected rows stay. *)
Theorem onDrop_selection_follows_columns (st : Core num) (from idx : nat) :
  List.NoDup (map key (cols st)) -> (from < length (cols st))%nat -> from <> idx ->
  hasSel (sel st) = true ->
  c1 (sel st) < Z.of_nat (length (cols st)) -> c2 (sel st) < Z.of_nat (length (cols st)) ->
  exists next n1 n2,
    onDrop (Some (Z.of_nat from)) idx st =
      Done (set_sel (set_cols st next) (mkSel (r1 (sel st)) (r2 (sel st)) n1 n2)) /\
    Permutation next (cols st) /\
    next !! Nat.min idx (length (cols st) - 1) = cols st !! from /\
    nth_z next n1 = nth_z (cols st) (c1 (sel st)) /\
    nth_z next n2 = nth_z (cols st) (c2 (sel st)).
Proof.
  intros Hn Hf Hne Hs Hc1 Hc2.
  assert (H0 : 0 <= c1 (sel st) /\ 0 <= c2 (sel st)).
  { unfold hasSel in Hs. repeat rewrite andb_true_iff in Hs.
    destruct Hs as [[[_ A] _] B]. apply Z.leb_le in A, B. auto. }
  destruct (move_col_spec (cols st) from idx Hf) as (next & Hm & Hp & Hat).
  assert (Hget : forall c, 0 <= c < Z.of_nat (length (cols st)) ->
            exists oc, nth_z (cols st) c = Some oc).
  { intros c Hc. unfold nth_z. rewrite (proj2 (Z.ltb_ge _ 0)) by lia.
    destruct (cols st !! Z.to_nat c) eqn:E; [eauto|apply lookup_ge_None in E; lia]. }
  destruct (Hget (c1 (sel st)) ltac:(lia)) as [o1 E1].
  destruct (Hget (c2 (sel st)) ltac:(lia)) as [o2 E2].
  destruct (mapIndex_follows (cols st) next _ o1 Hn Hp E1) as (i1 & F1 & N1).
  destruct (mapIndex_follows (cols st) next _ o2 Hn Hp E2) as (i2 & F2 & N2).
  exists next, (Z.of_nat i1), (Z.of_nat i2).
  split; [|split; [exact Hp|split; [exact Hat|split; congruence]]].
  unfold onDrop.
  rewrite (proj2 (Z.eqb_neq _ _)) by lia.
  rewrite splice_start_nat by lia. rewrite Hm, Hs. simpl.
  rewrite E1, E2, F1, F2. reflexivity.
Qed.

End Drop.

Import Samples.

Lemma onDrop_selection_follows_columns_witness :
  exists next n1 n2,
    onDrop (Some (Z.of_nat 0)) 2 three_cols =
      Done (set_sel (set_cols three_cols next) (mkSel 0 0 n1 n2)) /\
    Permutation next (cols three_cols) /\
    next !! 2%nat = Some colA /\
    nth_z next n1 = Some colA /\ nth_z next n2 = Some colB.
Proof.
  exact (onDrop_selection_follows_columns three_cols 0 2
           ltac:(vm_compute; repeat constructor; simpl; intuition discriminate)
           ltac:(simpl; lia) ltac:(lia) eq_refl ltac:(simpl; lia) ltac:(simpl; lia)).
Defined.

End DropTheorems.

Module IsoInputTheorems.
Import Js JsDate DateCodec JsFacts DateFacts Calendar CalendarFacts IsoInput.

Lemma years_ok_true : years_ok = true.
Proof. exact (@eq_refl bool true <: years_ok = true). Qed.

Lemma days_ok_true : days_ok = true.
Proof. exact (@eq_refl bool true <: days_ok = true). Qed.

(** Conversions unfold [years_ok] and [days_ok] before [forall_in]. *)
Strategy expand [years_ok days_ok].

Lemma digit_group_spec w s n :
  digit_group w s n = true -> all_digits s = true /\ String.length s = w /\ Number_digits s = n.
Proof.
  unfold digit_group. intros H. repeat rewrite andb_true_iff in H.
  destruct H as [[A B] C]. apply Nat.eqb_eq in B. apply Z.eqb_eq in C. auto.
Qed.

Lemma year_group y : 1000 <= y <= 9999 ->
  all_digits (String_of_Z y) = true /\ String.length (String_of_Z y) = 4%nat /\ Number_digits (String_of_Z y) = y.
Proof. intros H. apply digit_group_spec, (forall_in_spec _ _ _ years_ok_true y H). Qed.

Lemma day_group n : 1 <= n <= 31 ->
  all_digits (padStart2 (String_of_Z n)) = true /\ String.length (padStart2 (String_of_Z n)) = 2%nat /\
  Number_digits (padStart2 (String_of_Z n)) = n.
Proof. intros H. apply digit_group_spec, (forall_in_spec _ _ _ days_ok_true n H). Qed.

Lemma nonempty_of_length (s : string) w : String.length s = S w -> s <> ""%string.
Proof. intros H ->. discriminate. Qed.

(** The ISO string [yyyy-mm-dd] of digit groups is read by the ISO branch. *)
Lemma parse_iso_date (gy gm gd : string) (patternHint : option string) :
  all_digits gy = true -> String.length gy = 4%nat ->
  all_digits gm = true -> String.length gm = 2%nat ->
  all_digits gd = true -> String.length gd = 2%nat ->
  parseDateFlexible (gy ++ "-" ++ gm ++ "-" ++ gd) patternHint =
    date_or_null (new_Date (Number_digits gy) (Number_digits gm - 1) (Number_digits gd) 0 0 0).
Proof.
  intros Hy Ly Hm Lm Hd Ld.
  change (gy ++ "-" ++ gm ++ "-" ++ gd)%string with (gy ++ String "-" (gm ++ String "-" gd))%string.
  assert (E0 : String.eqb (gy ++ String "-" (gm ++ String "-" gd)) "" = false)
    by (destruct gy; [discriminate|reflexivity]).
  assert (Et : trim (gy ++ String "-" (gm ++ String "-" gd)) = (gy ++ String "-" (gm ++ String "-" gd))%string).
  { apply trim_dmy; [reflexivity|exact Hy|eapply nonempty_of_length; exact Ly|exact Hd|
                     eapply nonempty_of_length; exact Ld]. }
  assert (Ei : match_iso (gy ++ String "-" (gm ++ String "-" gd)) = Some (gy, gm, gd, None, None, None)).
  { unfold match_iso. rewrite digits_n_app by (simpl; auto). rewrite Ly. simpl.
    rewrite digits_n_app by (simpl; auto). rewrite Lm. simpl.
    rewrite <- (str_app_nil gd) at 1.
    rewrite digits_n_app by (simpl; auto). rewrite Ld. reflexivity. }
  unfold parseDateFlexible. rewrite E0, Et, E0, Ei. reflexivity.
Qed.

Lemma new_Date_midnight (y m d : Z) t :
  100 <= y -> new_Date y m d 0 0 0 = Some t -> getHours t = 0 /\ getMinutes t = 0.
Proof.
  intros Hy. unfold new_Date.
  replace ((0 <=? y) && (y <=? 99)) with false
    by (destruct (Z.leb_spec 0 y), (Z.leb_spec y 99); simpl; lia).
  unfold TimeClip, MakeDate, MakeTime.
  destruct (_ <=? _); intros H; inversion H; subst.
  unfold getHours, getMinutes, msPerDay. split.
  - replace (MakeDay y m d * 86400000 + (0 * 3600000 + 0 * 60000 + 0 * 1000 + 0))
      with (MakeDay y m d * 86400000) by lia.
    rewrite Z.mod_mul by lia. reflexivity.
  - replace (MakeDay y m d * 86400000 + (0 * 3600000 + 0 * 60000 + 0 * 1000 + 0))
      with ((MakeDay y m d * 24) * 3600000) by lia.
    rewrite Z.mod_mul by lia. reflexivity.
Qed.

Lemma iso_input_roundtrip (t y m d hh mi ss : Z) (patternHint : option string) :
  1000 <= y <= 9999 -> valid_date y m d -> valid_time hh mi ss ->
  new_Date y (m - 1) d hh mi ss = Some t ->
  exists t', parseDateFlexible (toISODateInputValue (Some t)) patternHint = Some t' /\
    new_Date y (m - 1) d 0 0 0 = Some t' /\
    getFullYear t' = y /\ getMonth t' = m - 1 /\ getDate t' = d /\
    getHours t' = 0 /\ getMinutes t' = 0.
Proof.
  intros Hy Hv Ht Ht0.
  destruct (new_Date_getters y m d hh mi ss ltac:(lia) Hv Ht) as (t0 & E0 & Y & M & D).
  rewrite Ht0 in E0. injection E0 as <-.
  destruct (new_Date_getters y m d 0 0 0 ltac:(lia) Hv ltac:(repeat split; lia)) as (t' & E' & Y' & M' & D').
  pose proof Hv as [Hm Hd]. pose proof (days_in_month_le y m).
  destruct (year_group y Hy) as (Ay & Ly & Ny).
  destruct (day_group m ltac:(lia)) as (Am & Lm & Nm).
  destruct (day_group d ltac:(lia)) as (Ad & Ld & Nd).
  exists t'. unfold toISODateInputValue. rewrite Y, M, D.
  replace (m - 1 + 1) with m by lia.
  rewrite parse_iso_date by assumption. rewrite Ny, Nm, Nd, E'.
  destruct (new_Date_midnight y (m - 1) d t' ltac:(lia) E') as [Hh Hmi].
  repeat split; auto.
Qed.

(** X18: the value [toISODateInputValue] gives a date input (years
    1000 to 9999) is read back by [parseDateFlexible], whatever the
    pattern hint, as midnight of the same calendar day. *)
Theorem toISODateInputValue_roundtrip (t y m d hh mi ss : Z) (patternHint : option string) :
  1000 <= y <= 9999 -> valid_date y m d -> valid_time hh mi ss ->
  new_Date y (m - 1) d hh mi ss = Some t ->
  exists t', parseDateFlexible (toISODateInputValue (Some t)) patternHint = Some t' /\
    new_Date y (m - 1) d 0 0 0 = Some t' /\
    getFullYear t' = y /\ getMonth t' = m - 1 /\ getDate t' = d /\
    getHours t' = 0 /\ getMinutes t' = 0.
Proof. apply iso_input_roundtrip. Qed.

Lemma toISODateInputValue_roundtrip_witness :
  toISODateInputValue (Some 1773570600000) = "2026-03-15"%string /\
  exists t', parseDateFlexible "2026-03-15" None = Some t' /\
    getFullYear t' = 2026 /\ getMonth t' = 2 /\ getDate t' = 15 /\ getHours t' = 0 /\ getMinutes t' = 0.
Proof.
  split; [vm_compute; reflexivity|].
  destruct (toISODateInputValue_roundtrip 1773570600000 2026 3 15 10 30 0 None ltac:(lia)
              ltac:(split; [lia|]; change (days_in_month 2026 3) with 31; lia)
              ltac:(unfold valid_time; lia) ltac:(vm_compute; reflexivity))
    as (t' & H1 & _ & Y & M & D & Hh & Hm).
  exists t'. exact (conj H1 (conj Y (conj M (conj D (conj Hh Hm))))).
Defined.

End IsoInputTheorems.

Module ViewDateTheorems.
Import Js JsDate DateCodec JsFacts DateFacts Calendar CalendarFacts Grid Ops
  IndentTheorems CommitEffectTheorems IsoInputTheorems.

Section View.
Context {num : Type}.
Variable Number : string -> num.
Variable NumberToString : num -> string.
Variable dateFormat : string.


End View.

Import Samples.


End ViewDateTheorems.

Module ContentTheorems.
Import Js DateCodec Grid Ops IndentTheorems CommitEffectTheorems.

Section Content.
Context {num : Type}.
Variable Number : string -> num.
Variable dateFormat : string.
Variable numTruthy : num -> bool.

(** X20: after a non-empty text is committed into a plain text column
    (neither number nor date) whose key is not "#", the row has content
    for [rowHasContent] over any column list containing that column. *)
Theorem commit_text_gives_content (st st' : Core num) (r c : Z) (raw : string) (endEdit : bool)
  (col : ColumnDef) (row : RowData) (cs : list ColumnDef) :
  nth_z (cols st) c = Some col -> isNumericColumn col = false -> isDateColumn col = false ->
  key col <> "#"%string -> In col cs -> raw <> ""%string ->
  nth_z (data st) r = Some row ->
  commitCellValue Number dateFormat r c raw endEdit st = Done st' ->
  rowHasContent numTruthy (heap st') (data st' !!! Z.to_nat r) cs = true.
Proof.
  intros Hc Hn Hd Hk Hin Hraw Hr H.
  destruct (commitCellValue_state Number dateFormat st st' r c raw endEdit col Hc H)
    as (_ & _ & _ & _ & _ & Hm).
  rewrite Hr in Hm. destruct Hm as (Hdata & Hh & _).
  apply nth_z_Some in Hr as [Hr0 Hrk].
  rewrite Hdata, Hh.
  rewrite (imap_at_eq (data st) (Z.to_nat r) r row (fun row' => mkRow (id row') (indent row') (next_loc st)))
    by (lia || exact Hrk).
  rewrite list_lookup_total_insert_eq by (eapply lookup_lt_Some; exact Hrk).
  unfold rowHasContent. apply existsb_exists. exists col. split; [exact Hin|].
  rewrite read_new_cells, String.eqb_refl.
  unfold coerce. rewrite Hn, Hd. simpl.
  apply andb_true_iff. split; apply negb_true_iff; apply String.eqb_neq; assumption.
Qed.

End Content.

Import Samples.

Lemma commit_text_gives_content_witness :
  match commitCellValue sample_Number "dd.mm.yyyy" 0 0 "y" true
          (sample_table [colA] [mkRow "r" 0 0%nat] ∅ 1%nat (mkSel 0 0 0 0)) with
  | Done st' => rowHasContent (fun n => negb (n =? 0)) (heap st') (data st' !!! 0%nat) [colA] = true
  | Throws _ => False
  end.
Proof.
  destruct (commitCellValue sample_Number "dd.mm.yyyy" 0 0 "y" true
              (sample_table [colA] [mkRow "r" 0 0%nat] ∅ 1%nat (mkSel 0 0 0 0))) as [st'|st'] eqn:E.
  - exact (commit_text_gives_content sample_Number "dd.mm.yyyy" (fun n => negb (n =? 0))
             (sample_table [colA] [mkRow "r" 0 0%nat] ∅ 1%nat (mkSel 0 0 0 0)) st' 0 0 "y" true colA (mkRow "r" 0 0%nat) [colA]
             eq_refl eq_refl eq_refl ltac:(discriminate) (or_introl eq_refl) ltac:(discriminate) eq_refl E).
  - vm_compute in E. discriminate E.
Defined.

End ContentTheorems.
